(** * SQLQueue: a work queue kept in one relational table

    A shallow embedding of [sqlconn/sqlqueue.py] (class [SQLQueue]) and of
    the part of [sqlconn/sqlconn.py] it appends rows through.

    The table is a list of rows in storage order together with the state
    of the [serial] sequence behind [sq_id].  Every statement the class
    sends is modelled by the effect of that one statement on the table,
    run alone: the store's clock [now()] and the calling host
    ([socket.gethostname()]) are arguments, time stamps are integers
    (microseconds, the resolution of a [timestamp]), and the store's
    arithmetic on them is exact.  [join_text] is left at its default
    (the empty text) throughout; [conditional_claim] is given by the
    disjuncts of its top level, each a predicate on rows.  A string is a
    sequence of characters, and its length is the number of them. *)

From Stdlib Require Import ZArith String Ascii QArith_base Sorted.
From stdpp Require Import gmap strings list sorting.

Open Scope Z_scope.

(** ** Values and rows *)

(** One value of a dataframe or of a payload column. *)
Inductive cell : Type :=
  | CNull
  | CInt (z : Z)
  | CStr (s : string)
  | CTime (t : Z).

#[global] Instance cell_eq_dec : EqDecision cell.
Proof. solve_decision. Defined.

(** The names of the columns added and managed by the queue. *)
Definition SQ_PRIORITY : string := "sq_priority".
Definition SQ_STATUS : string := "sq_status".
Definition SQ_ID : string := "sq_id".
Definition SQ_PUT_TIME : string := "sq_put_time".
Definition SQ_PUT_HOSTNAME : string := "sq_put_hostname".
Definition SQ_CLAIM_TIME : string := "sq_claim_time".
Definition SQ_CLAIM_HOSTNAME : string := "sq_claim_hostname".
Definition SQ_GET_TIME : string := "sq_get_time".
Definition SQ_GET_HOSTNAME : string := "sq_get_hostname".
Definition SQ_FINISH_TIME : string := "sq_finish_time".

Definition MAX_PRIORITY : Z := 10.
Definition MIN_PRIORITY : Z := 1.

Definition STATUS_AVAILABLE : string := "AVAILABLE".
Definition STATUS_CLAIMED : string := "CLAIMED".
Definition STATUS_PROGRESS : string := "IN_PROGRESS".
Definition STATUS_COMPLETED : string := "COMPLETED".
Definition STATUS_NOEXIST : string := "DOESNOTEXIST".
Definition STATUS_DESTROYED : string := "DESTROYED".
Definition STATUS_RECOVERABLE : string := "RECOVERABLE".

(** The ten columns the statements of the class name; the table is
    taken to have them all. *)
Definition meta_columns : list string :=
  [SQ_PRIORITY; SQ_STATUS; SQ_ID; SQ_PUT_TIME; SQ_PUT_HOSTNAME;
   SQ_CLAIM_TIME; SQ_CLAIM_HOSTNAME; SQ_GET_TIME; SQ_GET_HOSTNAME;
   SQ_FINISH_TIME].

(** A row of the queue table.  [sq_id] is the primary key and [sq_status]
    is written by every operation that inserts a row; the other columns
    are nullable.  [payload] holds the caller's columns. *)
Record row : Type := mkRow {
  sq_id : Z;
  sq_priority : option Z;
  sq_status : string;
  sq_put_time : option Z;
  sq_put_hostname : option string;
  sq_claim_time : option Z;
  sq_claim_hostname : option string;
  sq_get_time : option Z;
  sq_get_hostname : option string;
  sq_finish_time : option Z;
  payload : gmap string cell
}.

#[global] Instance row_eq_dec : EqDecision row.
Proof. solve_decision. Defined.

(** The value of a payload column in a row; a missing value reads NULL. *)
Definition row_cell (r : row) (c : string) : cell :=
  default CNull (payload r !! c).

(** The queue table: its payload columns, its rows, and the next value of
    the sequence that fills [sq_id]. *)
Record table : Type := mkTable {
  t_columns : list string;
  t_rows : list row;
  t_seq : Z
}.

Definition ids (q : table) : list Z := sq_id <$> t_rows q.

(** The primary key: no two rows share an [sq_id]. *)
Definition primary_key (q : table) : Prop := NoDup (ids q).

(** Record updates used by the UPDATE statements. *)
Definition set_status (s : string) (r : row) : row :=
  mkRow (sq_id r) (sq_priority r) s (sq_put_time r) (sq_put_hostname r)
        (sq_claim_time r) (sq_claim_hostname r) (sq_get_time r)
        (sq_get_hostname r) (sq_finish_time r) (payload r).

Definition set_claimed (now : Z) (host : string) (r : row) : row :=
  mkRow (sq_id r) (sq_priority r) STATUS_CLAIMED (sq_put_time r)
        (sq_put_hostname r) (Some now) (Some host) (sq_get_time r)
        (sq_get_hostname r) (sq_finish_time r) (payload r).

Definition set_got (now : Z) (host : string) (r : row) : row :=
  mkRow (sq_id r) (sq_priority r) STATUS_PROGRESS (sq_put_time r)
        (sq_put_hostname r) (sq_claim_time r) (sq_claim_hostname r)
        (Some now) (Some host) (sq_finish_time r) (payload r).

Definition set_finished (now : Z) (s : string) (r : row) : row :=
  mkRow (sq_id r) (sq_priority r) s (sq_put_time r) (sq_put_hostname r)
        (sq_claim_time r) (sq_claim_hostname r) (sq_get_time r)
        (sq_get_hostname r) (Some now) (payload r).

(** [UPDATE t SET ... WHERE w]: rows satisfying [w] are rewritten in
    place, the others are kept. *)
Definition update_where (w : row → bool) (f : row → row) (q : table) : table :=
  mkTable (t_columns q) ((λ r, if w r then f r else r) <$> t_rows q) (t_seq q).

(** [SELECT * FROM t WHERE w]. *)
Definition select_where (w : row → bool) (q : table) : list row :=
  List.filter w (t_rows q).

Definition id_is (i : Z) (r : row) : bool := sq_id r =? i.
Definition id_in (l : list Z) (r : row) : bool := bool_decide (sq_id r ∈ l).
Definition status_is (s : string) (r : row) : bool := bool_decide (sq_status r = s).
Definition status_in (l : list string) (r : row) : bool := bool_decide (sq_status r ∈ l).

(** ** Values written into statement text

    The class builds every statement with [str.format].  A status is
    written between single quotes and read back by the store as a string
    literal; a list of statuses is joined with [', '] and written between
    single quotes, to be read back as a list of literals. *)

Definition quote : ascii := "'"%char.
Definition comma : ascii := ","%char.
Definition space : ascii := " "%char.
Definition percent : ascii := "%"%char.
Definition backslash : ascii := "\"%char.

(** What the driver makes of a statement before it reaches the store.
    The statements are executed with an empty parameter list, so the text
    goes through [%]-formatting: [%%] stands for one [%], and a [%]
    followed by anything else raises.  [None] is the exception. *)
Fixpoint percent_format (s : string) : option string :=
  match s with
  | EmptyString => Some EmptyString
  | String c s' =>
      if bool_decide (c = percent) then
        match s' with
        | String c' s'' =>
            if bool_decide (c' = percent) then String percent <$> percent_format s''
            else None
        | EmptyString => None
        end
      else String c <$> percent_format s'
  end.

(** [', '.join(status_list)] between two quotes, as in
    [in ('{2:s}')]. *)
Definition quoted_join (l : list string) : string :=
  String quote (String.concat "', '" l +:+ "'").

(** Where the reader stands in a list of string literals. *)
Inductive lex_state : Type :=
  | Start                   (* a literal must begin *)
  | InLit (acc : string)    (* inside a literal *)
  | Quote (acc : string)    (* a quote seen inside a literal *)
  | Closed (acc : string).  (* after a literal, before a comma *)

Definition snoc (acc : string) (c : ascii) : string := acc +:+ String c EmptyString.

(** Reading ['a', 'b', ...]: a quote doubled inside a literal stands for
    one quote.  [None]: the text is not a comma-separated list of string
    literals, and the statement is outside what is modelled here. *)
Fixpoint read_literals (st : lex_state) (s : string) : option (list string) :=
  match s with
  | EmptyString =>
      match st with
      | Quote acc | Closed acc => Some [acc]
      | Start | InLit _ => None
      end
  | String c s' =>
      match st with
      | Start =>
          if bool_decide (c = quote) then read_literals (InLit EmptyString) s'
          else if bool_decide (c = space) then read_literals Start s'
          else None
      | InLit acc =>
          if bool_decide (c = quote) then read_literals (Quote acc) s'
          else read_literals (InLit (snoc acc c)) s'
      | Quote acc =>
          if bool_decide (c = quote) then read_literals (InLit (snoc acc quote)) s'
          else if bool_decide (c = comma) then cons acc <$> read_literals Start s'
          else if bool_decide (c = space) then read_literals (Closed acc) s'
          else None
      | Closed acc =>
          if bool_decide (c = comma) then cons acc <$> read_literals Start s'
          else if bool_decide (c = space) then read_literals (Closed acc) s'
          else None
      end
  end.

(** The statuses a statement names in [in ('...')], once the driver has
    formatted the text.  [None]: the driver raises, or the text is not a
    list of literals. *)
Definition in_literals (status_list : list string) : option (list string) :=
  percent_format (quoted_join status_list) ≫= read_literals Start.

(** The status a statement names in [= '...']. *)
Definition eq_literal (status : string) : option string :=
  match percent_format (quoted_join [status]) ≫= read_literals Start with
  | Some [s] => Some s
  | _ => None
  end.

(** A string without a single quote. *)
Fixpoint plain (s : string) : bool :=
  match s with
  | EmptyString => true
  | String c s' => negb (bool_decide (c = quote)) && plain s'
  end.

(** A string without a per-cent sign. *)
Fixpoint percent_free (s : string) : bool :=
  match s with
  | EmptyString => true
  | String c s' => negb (bool_decide (c = percent)) && percent_free s'
  end.

(** A text that reaches the store as the literal it is: printable ASCII
    without single quote, per-cent sign or backslash. *)
Definition literal_char (c : ascii) : bool :=
  (32 <=? nat_of_ascii c)%nat && (nat_of_ascii c <=? 126)%nat
  && negb (bool_decide (c = quote)) && negb (bool_decide (c = percent))
  && negb (bool_decide (c = backslash)).

Fixpoint literal_text (s : string) : bool :=
  match s with
  | EmptyString => true
  | String c s' => literal_char c && literal_text s'
  end.

(** A status the column [sq_status varchar(20)] takes as it is. *)
Definition storable (status : string) : Prop :=
  literal_text status = true ∧ (String.length status ≤ 20)%nat.

(** ** Time-outs written into statement text

    [cleanup_long_running_rows] writes [float(timeout)] with the
    conversion [{:f}], six digits after the point.  A time-out is the
    exact value of the Python number, a rational; [format_f] is the
    number of millionths the text carries, the nearest one with ties to
    even. *)
Definition format_f (h : Q) : Z :=
  let n := Qnum h * 1000000 in
  let d := Zpos (Qden h) in
  let q := n / d in
  let r := n mod d in
  if 2 * r <? d then q
  else if d <? 2 * r then q + 1
  else if Z.even q then q else q + 1.

(** [EXTRACT(EPOCH FROM now() - t)/3600 > th]: [t] and [now] in
    microseconds, [th] in millionths of an hour. *)
Definition hours_exceed (now t th : Z) : bool := th * 3600 <? now - t.

(** ** Enqueue: [put] and [SQLConn.append_to_table] *)

(** A dataframe: its column labels and its records.  A record that has
    no value under a label reads NULL there. *)
Record DataFrame : Type := mkDF {
  columns : list string;
  records : list (gmap string cell)
}.

(** [df.loc[:, c] = v]. *)
Definition df_set (c : string) (v : cell) (df : DataFrame) : DataFrame :=
  mkDF (if bool_decide (c ∈ columns df) then columns df else columns df ++ [c])
       (insert c v <$> records df).

(** [BaseSQLBridge.get_df_interesection]: drop the columns of the frame
    that the table does not have. *)
Definition get_df_interesection (df : DataFrame) (sql_columns : list string) : DataFrame :=
  mkDF (filter (λ c, c ∈ sql_columns) (columns df))
       (filter (λ kv : string * cell, kv.1 ∈ sql_columns) <$> records df).

(** The value a record gives to a column of the table: [None] when the
    frame has no such column (the column's default applies). *)
Definition given (df_columns : list string) (rec : gmap string cell) (c : string) : option cell :=
  if bool_decide (c ∈ df_columns) then Some (default CNull (rec !! c)) else None.

(** The range of the columns [int] and [serial]. *)
Definition in_int32 (z : Z) : bool := (-2147483648 <=? z) && (z <=? 2147483647).

(** The value a meta column takes.  The outer [None]: a number outside
    the range of the column, which the store rejects, or a value of
    another kind than the column, which the store rejects or converts; a
    conversion is outside what is modelled here. *)
Definition as_int (v : option cell) : option (option Z) :=
  match v with
  | None | Some CNull => Some None
  | Some (CInt z) => if in_int32 z then Some (Some z) else None
  | Some _ => None
  end.

Definition as_text (v : option cell) : option (option string) :=
  match v with
  | None | Some CNull => Some None
  | Some (CStr s) => Some (Some s)
  | Some _ => None
  end.

Definition as_time (v : option cell) : option (option Z) :=
  match v with
  | None | Some CNull => Some None
  | Some (CTime t) => Some (Some t)
  | Some _ => None
  end.

(** One INSERT: the record's values where the frame has the column, the
    column's default elsewhere ([nextval] for [sq_id], [now()] for
    [sq_put_time], NULL for the rest).  [None]: the statement is rejected
    (the key is already taken, a number does not fit its column), or a
    value is of another kind than its meta column (see [as_int]).  The
    payload columns carry no type here: whether the store takes the
    payload values, and takes them as they are, is not decided by this
    function, and the statements about [put] have its acceptance as a
    hypothesis. *)
Definition insert_record (now : Z) (df_columns : list string)
    (rec : gmap string cell) (q : table) : option table :=
  let g := given df_columns rec in
  key ← match g SQ_ID with
        | None => Some (t_seq q, t_seq q + 1)
        | Some (CInt z) => Some (z, t_seq q)
        | Some _ => None
        end;
  if negb (in_int32 key.1) then None else
  if bool_decide (key.1 ∈ ids q) then None else
  priority ← as_int (g SQ_PRIORITY);
  status ← match g SQ_STATUS with Some (CStr s) => Some s | _ => None end;
  put_time ← match g SQ_PUT_TIME with
             | None => Some (Some now)
             | v => as_time v
             end;
  put_hostname ← as_text (g SQ_PUT_HOSTNAME);
  claim_time ← as_time (g SQ_CLAIM_TIME);
  claim_hostname ← as_text (g SQ_CLAIM_HOSTNAME);
  get_time ← as_time (g SQ_GET_TIME);
  get_hostname ← as_text (g SQ_GET_HOSTNAME);
  finish_time ← as_time (g SQ_FINISH_TIME);
  Some (mkTable (t_columns q)
          (t_rows q ++
             [mkRow key.1 priority status put_time put_hostname claim_time
                    claim_hostname get_time get_hostname finish_time
                    (filter (λ kv : string * cell,
                               kv.1 ∈ t_columns q ∧ kv.1 ∈ df_columns) rec)])
          key.2).

Fixpoint insert_records (now : Z) (df_columns : list string)
    (recs : list (gmap string cell)) (q : table) : option table :=
  match recs with
  | [] => Some q
  | rec :: recs' =>
      q' ← insert_record now df_columns rec q;
      insert_records now df_columns recs' q'
  end.

(** [SQLConn.append_to_table] on an existing table: the frame is cut down
    to the table's columns and its records are appended, all or none, as
    [to_sql] stores them.  A frame of more than a hundred records goes
    through the bridge's bulk copy first, which writes the frame as CSV;
    a value that is the empty string arrives as NULL on that path, which
    is not modelled.  The statements below that speak of payload values
    are about frames of one record. *)
Definition append_to_table (now : Z) (data_to_append : DataFrame) (q : table) : option table :=
  let temp_df := get_df_interesection data_to_append (meta_columns ++ t_columns q) in
  insert_records now (columns temp_df) (records temp_df) q.

(** [SQLQueue.put].  [priority_included] is [true] for the Python value
    [True] and [false] for any other. *)
Definition put (host : string) (now : Z) (df : DataFrame)
    (priority_included : bool) (priority : Z) (q : table) : option table :=
  let priority_included :=
    if bool_decide (SQ_PRIORITY ∈ columns df) then priority_included else false in
  let priority := if MAX_PRIORITY <? priority then MAX_PRIORITY else priority in
  let priority := if priority <? MIN_PRIORITY then MIN_PRIORITY else priority in
  let df := if priority_included then df else df_set SQ_PRIORITY (CInt priority) df in
  let df := df_set SQ_STATUS (CStr STATUS_AVAILABLE) df in
  let df := df_set SQ_PUT_HOSTNAME (CStr host) df in
  append_to_table now df q.

(** ** Claim *)

(** [ORDER BY sq_priority DESC]: a NULL priority sorts before every
    number, a larger number before a smaller one. *)
Definition priority_above (p1 p2 : option Z) : bool :=
  match p1, p2 with
  | None, Some _ => true
  | Some a, Some b => b <? a
  | _, None => false
  end.

(** [r1] sorts strictly before [r2] under
    [ORDER BY sq_priority DESC, sq_id ASC]. *)
Definition sorts_before (r1 r2 : row) : bool :=
  priority_above (sq_priority r1) (sq_priority r2)
  || (bool_decide (sq_priority r1 = sq_priority r2) && (sq_id r1 <? sq_id r2)).

Fixpoint insert_sorted (r : row) (l : list row) : list row :=
  match l with
  | [] => [r]
  | x :: l' => if sorts_before x r then x :: insert_sorted r l' else r :: l
  end.

Definition order_by (l : list row) : list row := foldr insert_sorted [] l.

(** The caller's condition as the statement reads it.  [claim] and
    [available_count] write [WHERE sq_status = 'AVAILABLE' and] followed
    by the text of the condition, with no parentheses around it, and AND
    binds tighter than OR: for a text [d OR d1 OR ... OR dn] the clause is
    [(sq_status = 'AVAILABLE' and d) OR d1 OR ... OR dn].  A condition is
    given by the disjuncts of its top level, each one as the set of rows
    for which the store finds it true; a text without OR at the top level
    has no further disjunct.  The text is taken to be a Boolean
    expression the store evaluates on a row of the table; any other text
    is outside what is modelled here. *)
Record condition : Type := mkCondition {
  first_disjunct : row → bool;
  more_disjuncts : list (row → bool)
}.

(** The WHERE clause of [claim]; [None] is no condition ([None] or the
    empty text in Python). *)
Definition claimable (conditional_claim : option condition) (r : row) : bool :=
  match conditional_claim with
  | None => status_is STATUS_AVAILABLE r
  | Some c =>
      (status_is STATUS_AVAILABLE r && first_disjunct c r)
      || existsb (λ d, d r) (more_disjuncts c)
  end.

(** [SQLQueue.claim]: the table afterwards and the value returned. *)
Definition claim (host : string) (now : Z) (conditional_claim : option condition)
    (q : table) : table * Z :=
  let row_id_df := take 1 (order_by (select_where (claimable conditional_claim) q)) in
  match row_id_df with
  | r :: _ => (update_where (id_is (sq_id r)) (set_claimed now host) q, sq_id r)
  | [] => (q, -1)
  end.

(** ** Fetch, finish, introspection *)

(** [SQLQueue.get]: the table afterwards and the frame returned. *)
Definition get (host : string) (now : Z) (row_id : Z) (q : table) : table * list row :=
  let q' := update_where (id_is row_id) (set_got now host) q in
  (q', select_where (id_is row_id) q').

(** [SQLQueue.finish].  The status is written between quotes as it is.
    [None]: the call raises (the driver on a per-cent sign that is not
    doubled, the store on a status longer than the column
    [sq_status varchar(20)]), or the statement is outside what is
    modelled here: the text between the quotes is not one literal, so
    that the statement is another one, or the status is too long only by
    spaces at its end, which the store cuts off. *)
Definition finish (now : Z) (row_id : Z) (finish_status : string) (q : table) : option table :=
  s ← eq_literal finish_status;
  if decide (String.length s ≤ 20)%nat
  then Some (update_where (id_is row_id) (set_finished now s) q)
  else None.

(** [SQLQueue.get_status]. *)
Definition get_status (row_id : Z) (q : table) : string :=
  match select_where (id_is row_id) q with
  | r :: _ => sq_status r
  | [] => STATUS_NOEXIST
  end.

(** [SQLQueue.get_work_in_progress]. *)
Definition get_work_in_progress (q : table) : list row :=
  select_where (status_is STATUS_PROGRESS) q.

(** [SQLQueue.available_count]. *)
Definition available_count (conditional_claim : option condition) (q : table) : Z :=
  Z.of_nat (length (select_where (claimable conditional_claim) q)).

(** ** Recovery scanner and forced destroy *)

(** The WHERE clause of [cleanup_long_running_rows], with the two
    thresholds as the statement text carries them. *)
Definition timed_out (now th_in_progress th_claimed : Z) (r : row) : bool :=
  (status_is STATUS_PROGRESS r
   && match sq_get_time r with
      | Some t => hours_exceed now t th_in_progress
      | None => false
      end)
  || (status_is STATUS_CLAIMED r
      && match sq_claim_time r with
         | Some t => hours_exceed now t th_claimed
         | None => false
         end).

(** [SQLQueue.cleanup_long_running_rows]: the table afterwards and the
    frame returned. *)
Definition cleanup_long_running_rows (now : Z) (in_progress_timeout_h claimed_timeout_h : Q)
    (q : table) : table * list row :=
  let in_progress_df :=
    select_where (timed_out now (format_f in_progress_timeout_h)
                            (format_f claimed_timeout_h)) q in
  match in_progress_df with
  | _ :: _ =>
      let id_list := remove_dups (sq_id <$> in_progress_df) in
      (update_where (id_in id_list) (set_status STATUS_DESTROYED) q, in_progress_df)
  | [] => (q, in_progress_df)
  end.

(** [SQLQueue.set_destroyed]: the table afterwards and the list
    returned.  The SELECT has no ORDER BY: [scan] is the order in which
    the store returns the rows selected.  [None]: the driver raises, or
    the text is outside what is modelled here. *)
Definition set_destroyed (scan : list row → list row) (status_list : list string)
    (q : table) : option (table * list Z) :=
  named ← in_literals status_list;
  let in_progress_df := scan (select_where (status_in named) q) in
  Some (update_where (status_in named) (set_status STATUS_DESTROYED) q,
        match in_progress_df with
        | _ :: _ => sq_id <$> in_progress_df
        | [] => []
        end).

(** ** Table creation *)

Definition POSTGRES : string := "postgresql+psycopg2".

(** [d[k] = v] on a Python dict, kept as the list of its items in
    insertion order: an existing key keeps its place and takes the new
    value, a new key goes to the end. *)
Fixpoint dict_set (k v : string) (d : list (string * string)) : list (string * string) :=
  match d with
  | [] => [(k, v)]
  | (k', v') :: d' =>
      if bool_decide (k' = k) then (k, v) :: d' else (k', v') :: dict_set k v d'
  end.

Definition dict_get (k : string) (d : list (string * string)) : option string :=
  snd <$> List.find (λ kv, bool_decide (kv.1 = k)) d.

(** The meta columns [create_table] declares, in the order it assigns
    them, with their types.  [sq_claim_hostname], which [claim] writes,
    is not among them. *)
Definition declared_columns : list (string * string) :=
  [(SQ_STATUS, "varchar(20)"); (SQ_PRIORITY, "int");
   (SQ_PUT_TIME, "timestamp default now()"); (SQ_CLAIM_TIME, "timestamp");
   (SQ_GET_TIME, "timestamp"); (SQ_FINISH_TIME, "timestamp");
   (SQ_PUT_HOSTNAME, "text"); (SQ_GET_HOSTNAME, "text");
   (SQ_ID, "serial primary key")].

(** [SQLQueue.create_table] up to the call of [execute_sql]: on the left
    the message of the [TypeError] raised; on the right the caller's dict
    as the assignments leave it and the statement handed to
    [execute_sql]. *)
Definition create_table (squeue_name : string) (column_descriptions : list (string * string))
    (sql_type : string) : string + (list (string * string) * string) :=
  if bool_decide (sql_type = POSTGRES) then
    let sql := "create table if not exists " +:+ squeue_name +:+ " (" in
    let column_descriptions := dict_set SQ_STATUS "varchar(20)" column_descriptions in
    let column_descriptions := dict_set SQ_PRIORITY "int" column_descriptions in
    let column_descriptions := dict_set SQ_PUT_TIME "timestamp default now()" column_descriptions in
    let column_descriptions := dict_set SQ_CLAIM_TIME "timestamp" column_descriptions in
    let column_descriptions := dict_set SQ_GET_TIME "timestamp" column_descriptions in
    let column_descriptions := dict_set SQ_FINISH_TIME "timestamp" column_descriptions in
    let column_descriptions := dict_set SQ_PUT_HOSTNAME "text" column_descriptions in
    let column_descriptions := dict_set SQ_GET_HOSTNAME "text" column_descriptions in
    let column_descriptions := dict_set SQ_ID "serial primary key" column_descriptions in
    let columns_list := (λ x : string * string, x.1 +:+ " " +:+ x.2) <$> column_descriptions in
    let columns_string := String.concat ", " columns_list in
    inr (column_descriptions, sql +:+ columns_string +:+ ")")
  else
    inl ("We do not support " +:+ sql_type +:+ " type for creating SQL tables").

Module SQLQueue.

(** How a call of [create_table] ends. *)
Inductive created : Type :=
  | TypeError (msg : string)
  | Refused (column_descriptions : list (string * string)) (sql : string)
  | Created (column_descriptions : list (string * string)) (sql : string).

(** [SQLQueue.create_table] with its last step: [execute_sql] tells
    whether the store executes the statement ([SQLConn.execute_sql]
    returns) or not (it raises); in both cases the caller's dict has been
    changed by then. *)
Definition create_table (execute_sql : string → bool) (squeue_name : string)
    (column_descriptions : list (string * string)) (sql_type : string) : created :=
  match create_table squeue_name column_descriptions sql_type with
  | inl msg => TypeError msg
  | inr (described, sql) =>
      if execute_sql sql then Created described sql else Refused described sql
  end.

End SQLQueue.

(** The table a fresh queue starts from: no rows, the sequence at its
    first value. *)
Definition empty_queue (payload_columns : list string) : table :=
  mkTable payload_columns [] 1.

(** ** Sequences of operations *)

Inductive op : Type :=
  | OpPut (host : string) (now : Z) (df : DataFrame) (priority_included : bool) (priority : Z)
  | OpClaim (host : string) (now : Z) (conditional_claim : option condition)
  | OpGet (host : string) (now : Z) (row_id : Z)
  | OpFinish (now : Z) (row_id : Z) (finish_status : string)
  | OpCleanup (now : Z) (in_progress_timeout_h claimed_timeout_h : Q)
  | OpDestroy (status_list : list string).

(** The table after one operation.  [None]: the call raises, or its
    statement is outside what is modelled here (see [put], [finish] and
    [set_destroyed]): a status text that is not read back as string
    literals makes the statement another one, which the store may well
    execute. *)
Definition exec (o : op) (q : table) : option table :=
  match o with
  | OpPut host now df pi p => put host now df pi p q
  | OpClaim host now c => Some (claim host now c q).1
  | OpGet host now i => Some (get host now i q).1
  | OpFinish now i s => finish now i s q
  | OpCleanup now ip cl => Some (cleanup_long_running_rows now ip cl q).1
  | OpDestroy l => fst <$> set_destroyed id l q
  end.

(** A sequence of calls, each of which returns. *)
Fixpoint run (ops : list op) (q : table) : option table :=
  match ops with
  | [] => Some q
  | o :: ops' => q' ← exec o q; run ops' q'
  end.

(** The row stored under an identifier. *)
Definition find_row (i : Z) (q : table) : option row :=
  head (select_where (id_is i) q).

(** ** Properties the operations are measured against *)

(** A time stamp [t] lies more than [h] hours before [now]. *)
Definition older_than (now t : Z) (h : Q) : Prop :=
  Qnum h * 3600000000 < (now - t) * Zpos (Qden h).

(** A lease that has run out: CLAIMED for more than [t_cl] hours or
    IN_PROGRESS for more than [t_ip] hours. *)
Definition lease_expired (now : Z) (t_ip t_cl : Q) (r : row) : Prop :=
  (sq_status r = STATUS_CLAIMED
   ∧ ∃ t, sq_claim_time r = Some t ∧ older_than now t t_cl)
  ∨ (sq_status r = STATUS_PROGRESS
     ∧ ∃ t, sq_get_time r = Some t ∧ older_than now t t_ip).

(** A time-out as the statement text carries it. *)
Definition as_written (h : Q) : Q := Qmake (format_f h) 1000000.

(** From [q] to [q']: the rows satisfying [P] have their status set to
    DESTROYED and nothing else changed; every other row is as it was. *)
Definition destroys_exactly (P : row → Prop) (q q' : table) : Prop :=
  t_columns q' = t_columns q
  ∧ t_seq q' = t_seq q
  ∧ Forall2 (λ r r', (P r → r' = set_status STATUS_DESTROYED r) ∧ (¬ P r → r' = r))
            (t_rows q) (t_rows q').

(** The recovery scanner measured against the time-outs [t_ip], [t_cl]. *)
Definition recovers (now : Z) (t_ip t_cl : Q) (q : table) (res : table * list row) : Prop :=
  destroys_exactly (lease_expired now t_ip t_cl) q res.1
  ∧ ∀ r, r ∈ res.2 ↔ r ∈ t_rows q ∧ lease_expired now t_ip t_cl r.

(** Forced destroy measured against the caller's list; the keys come
    back in an order of the store's choosing. *)
Definition evicts (status_list : list string) (q : table) (res : table * list Z) : Prop :=
  destroys_exactly (λ r, sq_status r ∈ status_list) q res.1
  ∧ res.2 ≡ₚ sq_id <$> filter (λ r, sq_status r ∈ status_list) (t_rows q).



(** The rows a [put] added. *)
Definition inserted (q q' : table) : list row := drop (length (t_rows q)) (t_rows q').


(** ** Successive claims *)

(** The identifiers returned to a sequence of callers (host, clock), one
    claim after the other, nothing else touching the table. *)
Fixpoint claims (callers : list (string * Z)) (conditional_claim : option condition)
    (q : table) : list Z :=
  match callers with
  | [] => []
  | (host, now) :: callers' =>
      let res := claim host now conditional_claim q in
      res.2 :: claims callers' conditional_claim res.1
  end.

(** [l] is in the order of the ORDER BY clause: nothing sorts strictly
    before an earlier element. *)
Definition ordered (l : list row) : Prop :=
  StronglySorted (λ a b, sorts_before b a = false) l.


(** The text of the condition has no OR at its top level. *)
Definition no_top_level_or (conditional_claim : option condition) : Prop :=
  match conditional_claim with
  | Some c => more_disjuncts c = []
  | None => True
  end.


(** The three-row backlog with priorities 5, 9 and 1. *)
Definition backlog_5_9_1 : table :=
  default (empty_queue ["job"])
    (put "producer" 100
       (mkDF ["job"; "sq_priority"]
          [ {[ "job" := CStr "a"; "sq_priority" := CInt 5 ]};
            {[ "job" := CStr "b"; "sq_priority" := CInt 9 ]};
            {[ "job" := CStr "c"; "sq_priority" := CInt 1 ]} ])
       true 1 (empty_queue ["job"])).

(** The condition [job = 'zzz' OR job = 'b']. *)
Definition zzz_or_b : condition :=
  mkCondition (λ r, bool_decide (row_cell r "job" = CStr "zzz"))
              [λ r, bool_decide (row_cell r "job" = CStr "b")].

(** The backlog after one claim: the row [b], of priority 9, is
    CLAIMED. *)
Definition backlog_claimed_b : table := (claim "w0" 150 None backlog_5_9_1).1.

(** What [put] stores for one record of the frame [df]: the status and
    the host it stamps, the priority (the record's own, or the default
    brought into range), and the record's values in the payload columns of
    the table. *)
Definition put_row (host : string) (df : DataFrame) (priority_included : bool)
    (priority : Z) (q : table) (rec : gmap string cell) (r : row) : Prop :=
  sq_status r = STATUS_AVAILABLE
  ∧ sq_put_hostname r = Some host
  ∧ (if priority_included && bool_decide (SQ_PRIORITY ∈ columns df)
     then as_int (Some (default CNull (rec !! SQ_PRIORITY))) = Some (sq_priority r)
     else ∃ z, sq_priority r = Some z
               ∧ MIN_PRIORITY ≤ z ≤ MAX_PRIORITY
               ∧ (MIN_PRIORITY ≤ priority ≤ MAX_PRIORITY → z = priority))
  ∧ (∀ c, c ∈ t_columns q → c ∉ meta_columns →
          row_cell r c = if bool_decide (c ∈ columns df)
                         then default CNull (rec !! c) else CNull).

(** A one-row frame whose own [sq_status] and [sq_put_hostname] say
    otherwise. *)
Definition forged_frame : DataFrame :=
  mkDF ["job"; "sq_status"; "sq_put_hostname"]
       [ {[ "job" := CStr "a"; "sq_status" := CStr "COMPLETED";
            "sq_put_hostname" := CStr "elsewhere" ]} ].

Definition forged_put : table :=
  default (empty_queue ["job"]) (put "producer" 100 forged_frame false 3 (empty_queue ["job"])).

(** A frame that brings its own priorities, one above and one below the
    range. *)
Definition out_of_range_frame : DataFrame :=
  mkDF ["job"; "sq_priority"]
       [ {[ "job" := CStr "a"; "sq_priority" := CInt 50 ]};
         {[ "job" := CStr "b"; "sq_priority" := CInt (-3) ]} ].





(** What [get_status] answers on [q] for the key [row_id]. *)
Definition status_lookup (row_id : Z) (q : table) : Prop :=
  (∀ r, r ∈ t_rows q → sq_id r = row_id → get_status row_id q = sq_status r)
  ∧ (row_id ∉ ids q → get_status row_id q = STATUS_NOEXIST)
  ∧ (row_id ∈ ids q →
     ∀ now, ∃ q', finish now row_id STATUS_COMPLETED q = Some q'
                  ∧ get_status row_id q' = STATUS_COMPLETED).



(** A time-out that is a whole number of millionths of an hour. *)
Definition whole_millionths (h : Q) : Prop :=
  (Qnum h * 1000000) mod Zpos (Qden h) = 0.

(** The recovery scanner measured against the time-outs as the statement
    carries them, and against the time-outs themselves when these are
    whole millionths of an hour. *)
Definition recovers_as_written (now : Z) (t_ip t_cl : Q) (q : table)
    (res : table * list row) : Prop :=
  recovers now (as_written t_ip) (as_written t_cl) q res
  ∧ (whole_millionths t_ip → whole_millionths t_cl → recovers now t_ip t_cl q res).

(** One row, claimed at time 0 and never fetched. *)
Definition claimed_once : table :=
  (claim "worker" 0 None
     (default (empty_queue ["job"])
        (put "producer" 0 (mkDF ["job"] [ {[ "job" := CStr "a" ]} ]) false 1
           (empty_queue ["job"])))).1.

(** One row finished with the empty status, and one finished with the
    status [a]. *)
Definition finished_with (status : string) : table :=
  default (empty_queue ["job"])
    (finish 5 1 status
       (default (empty_queue ["job"])
          (put "producer" 0 (mkDF ["job"] [ {[ "job" := CStr "a" ]} ]) false 1
             (empty_queue ["job"])))).

(** What [create_table] does with the caller's column descriptions.  For
    a type other than Postgres it raises the [TypeError] and does nothing
    else.  For the Postgres type it checks no name: the columns of the
    dict it leaves are the caller's columns, in the caller's order,
    followed by the declared meta columns the caller did not have; each
    of the nine declared names has the queue's type, every other column
    the caller's; the statement lists the columns of that dict; and the
    call returns or raises as the store takes that statement. *)
Definition creates (execute_sql : string → bool) (squeue_name : string)
    (column_descriptions : list (string * string)) (sql_type : string) : Prop :=
  if decide (sql_type = POSTGRES) then
    ∃ described sql,
      SQLQueue.create_table execute_sql squeue_name column_descriptions sql_type
      = (if execute_sql sql then SQLQueue.Created described sql
         else SQLQueue.Refused described sql)
      ∧ sql = ("create table if not exists " +:+ squeue_name +:+ " (") +:+
              String.concat ", "
                ((λ x : string * string, x.1 +:+ " " +:+ x.2) <$> described)
              +:+ ")"
      ∧ described.*1
        = column_descriptions.*1
          ++ filter (λ k, k ∉ column_descriptions.*1) declared_columns.*1
      ∧ (∀ k v, (k, v) ∈ declared_columns → dict_get k described = Some v)
      ∧ (∀ k, k ∉ declared_columns.*1 →
              dict_get k described = dict_get k column_descriptions)
  else
    SQLQueue.create_table execute_sql squeue_name column_descriptions sql_type
    = SQLQueue.TypeError
        ("We do not support " +:+ sql_type +:+ " type for creating SQL tables").



(** One row, enqueued at 100, claimed at 200 and fetched at 300. *)
Definition fetched_once : table :=
  default (empty_queue ["job"])
    (run [OpPut "producer" 100 (mkDF ["job"] [ {[ "job" := CStr "a" ]} ]) false 1;
          OpClaim "worker" 200 None;
          OpGet "worker" 300 1]
         (empty_queue ["job"])).

(** The same row finished at 400, and a row claimed at 200 and set back
    to AVAILABLE by a [finish] at 300. *)
Definition finished_once : table :=
  default fetched_once (exec (OpFinish 400 1 STATUS_COMPLETED) fetched_once).


(** ** What the operations keep *)



(** A batch of two jobs without meta columns. *)
Definition two_jobs : DataFrame :=
  mkDF ["job"] [ {[ "job" := CStr "b" ]}; {[ "job" := CStr "c" ]} ].

(** ** Table and schema names: [SQLConn.get_names]

    The bridges of [SQLConn.bridge_factory], with the default schema each
    one answers. *)
Inductive bridge : Type :=
  | SnowflakeBridge
  | MsSQLBridge
  | MsSQLNoauthBridge
  | PostgresBridge
  | SQLLiteBridge.

Definition MSSQL : string := "mssql".
Definition MSSQLNOAUTH : string := "mssqlnoauth".
Definition SQLITE : string := "sqlite".
Definition SNOWFLAKE : string := "snowflake".

(** [SQLConn.bridge_factory]: [None] is the [RuntimeError] raised for a
    type that is not supported. *)
Definition bridge_factory (sql_type : string) : option bridge :=
  if bool_decide (sql_type = SNOWFLAKE) then Some SnowflakeBridge
  else if bool_decide (sql_type = MSSQL) then Some MsSQLBridge
  else if bool_decide (sql_type = MSSQLNOAUTH) then Some MsSQLNoauthBridge
  else if bool_decide (sql_type = POSTGRES) then Some PostgresBridge
  else if bool_decide (sql_type = SQLITE) then Some SQLLiteBridge
  else None.

Definition default_schema (b : bridge) : string :=
  match b with
  | SnowflakeBridge | MsSQLBridge | MsSQLNoauthBridge => "dbo"
  | PostgresBridge => "public"
  | SQLLiteBridge => "main"
  end.

Definition dot : ascii := "."%char.

(** [s.split(sep)] for a separator of one character: the pieces between
    the separators, empty pieces included; never the empty list. *)
Fixpoint str_split (sep : ascii) (s : string) : list string :=
  match s with
  | EmptyString => [EmptyString]
  | String c s' =>
      if bool_decide (c = sep) then EmptyString :: str_split sep s'
      else match str_split sep s' with
           | x :: l => String c x :: l
           | [] => [String c EmptyString]
           end
  end.

(** [l[-1]] and [l[-2]] on a list of strings; [None] is an
    [IndexError]. *)
Definition last_but (n : nat) (l : list string) : option string :=
  if decide (n < length l)%nat then l !! (length l - S n)%nat else None.

(** [SQLConn.get_names]: the table name and the schema name.  [schema]
    is [None] for the Python value [None]. *)
Definition get_names (sql_bridge : bridge) (table : string) (schema : option string)
    : option (string * string) :=
  table_name ← last_but 0 (str_split dot table);
  if decide (1 < length (str_split dot table))%nat then
    schema_name ← last_but 1 (str_split dot table);
    Some (table_name, schema_name)
  else
    Some (table_name,
          match schema with None => default_schema sql_bridge | Some s => s end).

(** A string without the character [sep]. *)
Fixpoint free_of (sep : ascii) (s : string) : bool :=
  match s with
  | EmptyString => true
  | String c s' => negb (bool_decide (c = sep)) && free_of sep s'
  end.

(** ** The two ways of writing a frame: [SQLConn.append_to_table]

    The choice between the bridge's bulk load and pandas' [to_sql].  The
    store is any type [S]; a call either returns or raises, and leaves a
    store behind in both cases. *)
Inductive outcome (S : Type) : Type :=
  | Returned (st : S)
  | Raised (st : S).
Arguments Returned {S} st.
Arguments Raised {S} st.

Definition BULK_FORCE : Z := 0.
Definition BULK_OFF : Z := 1.
Definition BULK_CHANCE : Z := 2.

Module SQLConn.
Section write.
Context {S : Type}.
(** [sql_bridge.bulk_load], [temp_df.to_sql] and [sql_engine.dispose]
    for the frame and the table at hand. *)
Variable bulk_load : S → outcome S.
Variable to_sql : S → outcome S.
Variable dispose : S → S.

(** The part of [append_to_table] after the frame has been cut down to
    the table's columns; [len] is [len(temp_df)]. *)
Definition append_to_table (bulk_copy chance_min_length : Z) (len : Z) (st : S)
    : outcome S :=
  let bulk_copy :=
    if bool_decide (bulk_copy = BULK_CHANCE) && (chance_min_length <? len)
    then BULK_FORCE else bulk_copy in
  let after_bulk :=
    if bool_decide (bulk_copy = BULK_FORCE) then
      match bulk_load st with
      | Returned st' => (bulk_copy, st')
      | Raised st' => (BULK_OFF, st')
      end
    else (bulk_copy, st) in
  if bool_decide (after_bulk.1 ∈ [BULK_OFF; BULK_CHANCE]) then
    match to_sql after_bulk.2 with
    | Returned st' => Returned st'
    | Raised st' => to_sql (dispose st')
    end
  else Returned after_bulk.2.
End write.
End SQLConn.


(** ** The registry of connection parameters: [SQLParams]

    [SQL_PARAMS] is a dict from nicknames to the six values of a
    connection; it is kept as the list of its items in insertion order,
    which is the order [get_nickname] walks through. *)
Module SQLParams.

Record entry : Type := mkEntry {
  e_host : string;
  e_database : string;
  e_username : string;
  e_password : string;
  e_port : Z;
  e_type : string
}.

#[global] Instance entry_eq_dec : EqDecision entry.
Proof. solve_decision. Defined.

(** An [SQLParams] object. *)
Record params : Type := mkParams {
  host : string;
  database : string;
  username : string;
  password : string;
  port : Z;
  type : string;
  diff_database : bool
}.

Inductive error : Type :=
  | KeyError (msg : string)
  | NameError (msg : string)
  | RuntimeError (msg : string)   (* raised by [SQLConn.bridge_factory] *)
  | EngineError.                  (* raised by the bridge's [get_engine] *)

Definition registry : Type := list (string * entry).

(** [SQL_PARAMS[k]] for a key that is there. *)
Definition item (SQL_PARAMS : registry) (k : string) : option entry :=
  snd <$> List.find (λ kv, bool_decide (kv.1 = k)) SQL_PARAMS.

Definition from_json (SQL_PARAMS : registry) (sql_nickname : string) : error + params :=
  if bool_decide (sql_nickname ∈ SQL_PARAMS.*1) then
    match item SQL_PARAMS sql_nickname with
    | Some w =>
        inr (mkParams (e_host w) (e_database w) (e_username w) (e_password w)
                      (e_port w) (e_type w) false)
    | None => inl (KeyError sql_nickname)
    end
  else inl (KeyError (sql_nickname +:+ " is not a valid sql nickname")).

Definition get_sql_nicknames (SQL_PARAMS : registry) : list string := SQL_PARAMS.*1.

(** The condition of the loop of [get_nickname]. *)
Definition matches (self : params) (e : entry) : bool :=
  bool_decide (e_host e = host self)
  && (bool_decide (e_database e = database self) || diff_database self)
  && bool_decide (e_username e = username self)
  && bool_decide (e_password e = password self)
  && bool_decide (e_port e = port self)
  && bool_decide (e_type e = type self).

Definition get_nickname (SQL_PARAMS : registry) (self : params) : error + string :=
  match List.find (λ kv, matches self kv.2) SQL_PARAMS with
  | Some kv => inr kv.1
  | None => inl (NameError "SQL Parameters do not match any nickname")
  end.

(** [add_sql_nickname]: the error raised, or the registry afterwards. *)
Definition add_sql_nickname (SQL_PARAMS : registry) (nickname : string)
    (sqlparams_object : params) : error + registry :=
  if bool_decide (nickname ∈ SQL_PARAMS.*1) then
    inl (KeyError "This nickname is already taken")
  else
    inr (SQL_PARAMS ++
         [(nickname,
           mkEntry (host sqlparams_object) (database sqlparams_object)
                   (username sqlparams_object) (password sqlparams_object)
                   (port sqlparams_object) (type sqlparams_object))]).

(** [SQLConn(params)]: the bridge for the type of the parameters, then
    the engine; [get_engine] tells whether the bridge's [get_engine]
    returns for them. *)
Definition connect (get_engine : bridge → params → bool) (p : params) : error + params :=
  match bridge_factory (type p) with
  | None =>
      inl (RuntimeError
             ("We do not support a bulk load for SQLConn connection type " +:+ type p))
  | Some b => if get_engine b p then inr p else inl EngineError
  end.

(** [SQLConn.change_database]: the parameters of the connection it
    returns.  A connection is made for the nickname first, and a second
    one for its parameters with the new database. *)
Definition change_database (get_engine : bridge → params → bool) (SQL_PARAMS : registry)
    (sql_nickname database_name : string) : error + params :=
  match from_json SQL_PARAMS sql_nickname with
  | inl e => inl e
  | inr p =>
      match connect get_engine p with
      | inl e => inl e
      | inr p =>
          connect get_engine
            (mkParams (host p) database_name (username p) (password p) (port p) (type p)
                      true)
      end
  end.

(** The parameters [from_json] builds from an entry. *)
Definition of_entry (w : entry) : params :=
  mkParams (e_host w) (e_database w) (e_username w) (e_password w) (e_port w) (e_type w)
           false.

(** Two entries that differ at most in the database. *)
Definition same_server (e e' : entry) : Prop :=
  e_host e' = e_host e ∧ e_username e' = e_username e ∧ e_password e' = e_password e
  ∧ e_port e' = e_port e ∧ e_type e' = e_type e.

End SQLParams.

(** A registry in which two nicknames stand for the same connection. *)
Definition sample_registry : SQLParams.registry :=
  [("warehouse", SQLParams.mkEntry "db1" "sales" "ann" "pw" 5432 POSTGRES);
   ("reports", SQLParams.mkEntry "db1" "sales" "ann" "pw" 5432 POSTGRES);
   ("scratch", SQLParams.mkEntry "local" "tmp.db" "ann" "pw" 0 SQLITE)].

(** ** File modes: [BaseMsSQLBridge.make_executable]

    The mode [make_executable] hands to [os.chmod] for a file whose mode
    is [st]: [st |= (st & 0o444) >> 2]. *)
Definition make_executable (st : Z) : Z :=
  Z.lor st (Z.shiftr (Z.land st 292) 2).

(** The positions of the three execute bits, [0o111]. *)
Definition execute_bits : list Z := [0; 3; 6].

(** ** Snowflake: frames against upper-case column names

    [str.upper] on the letters [a] to [z]; column names are taken to be
    ASCII. *)
Definition upper_char (c : ascii) : ascii :=
  let n := nat_of_ascii c in
  if (97 <=? n)%nat && (n <=? 122)%nat then ascii_of_nat (n - 32) else c.

Fixpoint upper (s : string) : string :=
  match s with
  | EmptyString => EmptyString
  | String c s' => String (upper_char c) (upper s')
  end.

(** [l.index(x)]: the first position of [x]; [None] is the
    [ValueError]. *)
Definition index (x : string) (l : list string) : option nat :=
  fst <$> list_find (λ y, y = x) l.

(** [df.drop(label, axis=1, inplace=True)]. *)
Definition df_drop (label : string) (df : DataFrame) : DataFrame :=
  mkDF (filter (λ c, c ≠ label) (columns df)) (delete label <$> records df).

Module Snowflake.

(** The first loop of [get_df_interesection]. *)
Fixpoint bad_indices (df_columns df_columns_upper bad_columns : list string)
    : option (list nat) :=
  match bad_columns with
  | [] => Some []
  | col :: rest =>
      if bool_decide (col ∈ df_columns_upper) then
        idx ← index col df_columns;
        indices ← bad_indices df_columns df_columns_upper rest;
        Some (idx :: indices)
      else bad_indices df_columns df_columns_upper rest
  end.

(** [SnowflakeBridge.get_df_interesection]; [None] is the [ValueError]
    of [index].  The set difference is listed in the order of
    [elements]. *)
Definition get_df_interesection (df : DataFrame) (sql_columns : list string)
    : option DataFrame :=
  let sql_columns_upper := upper <$> sql_columns in
  let df_columns := columns df in
  let df_columns_upper := upper <$> df_columns in
  let bad_columns :=
    elements ((list_to_set df_columns_upper : gset string)
              ∖ list_to_set sql_columns_upper) in
  indices ← bad_indices df_columns df_columns_upper bad_columns;
  Some (foldl (λ df idx,
                 match df_columns !! idx with
                 | Some label => df_drop label df
                 | None => df
                 end) df indices).

End Snowflake.

(** A column of the frame that the table does not have, whatever the
    case of the letters. *)
Definition unknown_column (df : DataFrame) (sql_columns : list string) (c : string) : Prop :=
  c ∈ columns df ∧ upper c ∉ upper <$> sql_columns.

(** A label that is the upper-case form of an unknown column. *)
Definition dropped_label (df : DataFrame) (sql_columns : list string) (c : string) : bool :=
  bool_decide (c ∈ upper <$> columns df)
  && negb (bool_decide (c ∈ upper <$> sql_columns)).

(** A frame in lower case with one column the table does not have, and a
    frame with the two spellings of such a column. *)
Definition lower_case_frame : DataFrame :=
  mkDF ["job"; "extra"] [ {[ "job" := CStr "a"; "extra" := CInt 1 ]} ].

Definition two_spellings_frame : DataFrame :=
  mkDF ["extra"; "EXTRA"] [ {[ "extra" := CInt 1; "EXTRA" := CInt 2 ]} ].

(** ** Dropping and creating before a bulk load:
    [BaseSQLBridge._determine_table]

    The store is any type [S], as for [append_to_table]; the calls the
    function makes are given with their outcome. *)
Definition TABLE_STATE_UNKNOWN : Z := 0.
Definition TABLE_STATE_EXISTS : Z := 1.
Definition TABLE_STATE_NO_EXISTS : Z := 2.

Module BaseSQLBridge.
Section determine.
Context {S : Type}.
(** [self.get_columns(table_name, schema_name)]: the list it returns, or
    [None] when it raises; [execute_sql] of the [DROP TABLE] statement;
    and [table.create()] on pandas' [SQLTable] for the frame. *)
Variable get_columns : S → option (list string).
Variable drop_table : S → outcome S.
Variable create : S → outcome S.

(** [_determine_table].  The failed [assert] on [if_exists] and an
    exception of [get_columns] leave the store as it is. *)
Definition _determine_table (table_state : Z) (if_exists : string) (st : S) : outcome S :=
  if negb (bool_decide (if_exists ∈ ["replace"; "append"])) then Raised st else
  let table_state :=
    if bool_decide (table_state = TABLE_STATE_UNKNOWN) then
      match get_columns st with
      | Some (_ :: _) => Some TABLE_STATE_EXISTS
      | Some [] => Some TABLE_STATE_NO_EXISTS
      | None => None
      end
    else Some table_state in
  match table_state with
  | None => Raised st
  | Some table_state =>
      let dropped :=
        if bool_decide (table_state = TABLE_STATE_EXISTS)
           && bool_decide (if_exists = "replace")
        then match drop_table st with
             | Returned st' => inr (TABLE_STATE_NO_EXISTS, st')
             | Raised st' => inl st'
             end
        else inr (table_state, st) in
      match dropped with
      | inl st' => Raised st'
      | inr (table_state, st') =>
          if bool_decide (table_state = TABLE_STATE_NO_EXISTS) then create st'
          else Returned st'
      end
  end.
End determine.
End BaseSQLBridge.

(** What [_determine_table] is told, or finds out, about the table:
    [Some true] that it exists, [Some false] that it does not, [None]
    that [get_columns] raised. *)
Definition told {S : Type} (get_columns : S → option (list string)) (table_state : Z)
    (st : S) : option bool :=
  if bool_decide (table_state = TABLE_STATE_UNKNOWN) then
    (λ l, negb (bool_decide (l = []))) <$> get_columns st
  else Some (bool_decide (table_state = TABLE_STATE_EXISTS)).

(** ** Loading the configuration files: the package's [__init__]

    [found_configs] lists the files that could be read, the one with the
    highest priority first.  A JSON object is the list of its items; a
    value that may be [null] is an [option].  The files are taken to have
    the shape their description gives: the keys marked mandatory are
    there, and user names and passwords are strings or [null]. *)
Module Init.

Record credential : Type := mkCredential {
  c_username : option string;
  c_password : option string
}.

(** An item of [databases]; for the user name and the password the outer
    [None] is a key that is not there. *)
Record database : Type := mkDatabase {
  d_host : string;
  d_database : string;
  d_port : Z;
  d_type : string;
  d_username : option (option string);
  d_password : option (option string)
}.

Record config : Type := mkConfig {
  credentials : option (list (string * credential));
  databases : option (list (string * database))
}.

(** An item of [SQL_PARAMS]. *)
Record connection : Type := mkConnection {
  host : string;
  database_name : string;
  port : Z;
  type : string;
  username : option string;
  password : option string
}.

Inductive load_error : Type :=
  | NoConfigFile               (* RuntimeError: no file found *)
  | NoCredentials              (* RuntimeError: no valid credentials *)
  | KeyError (type_ : string)  (* MASTER_CREDS has no such type *)
  | ConnectionError.

(** The truth value of a string or [null]. *)
Definition truthy (v : option string) : bool :=
  match v with
  | Some s => negb (bool_decide (s = EmptyString))
  | None => false
  end.

Definition creds : Type := list (string * (option string * option string)).

(** The body of the loop over [config['credentials']]. *)
Definition master_step (MASTER_CREDS : creds) (item : string * credential) : creds :=
  if bool_decide (item.1 ∈ MASTER_CREDS.*1) then MASTER_CREDS
  else if truthy (c_username item.2) && truthy (c_password item.2)
       then MASTER_CREDS ++ [(item.1, (c_username item.2, c_password item.2))]
       else MASTER_CREDS.

Definition master_creds (found_configs : list config) : creds :=
  foldl (λ MASTER_CREDS config,
           match credentials config with
           | Some section => foldl master_step MASTER_CREDS section
           | None => MASTER_CREDS
           end) [] found_configs.

Definition lookup_type (MASTER_CREDS : creds) (type_ : string)
    : option (option string * option string) :=
  snd <$> List.find (λ kv, bool_decide (kv.1 = type_)) MASTER_CREDS.

(** What is stored for a database that is not yet in [SQL_PARAMS]. *)
Definition resolve (MASTER_CREDS : creds) (d : database) : load_error + connection :=
  match d_username d, d_password d with
  | Some u, Some p =>
      inr (mkConnection (d_host d) (d_database d) (d_port d) (d_type d) u p)
  | _, _ =>
      match lookup_type MASTER_CREDS (d_type d) with
      | None => inl (KeyError (d_type d))
      | Some (u, p) =>
          if bool_decide (u = None) || bool_decide (p = None) then inl ConnectionError
          else inr (mkConnection (d_host d) (d_database d) (d_port d) (d_type d) u p)
      end
  end.

(** The body of the loop over [config['databases']]. *)
Definition params_step (MASTER_CREDS : creds)
    (SQL_PARAMS : load_error + list (string * connection)) (item : string * database)
    : load_error + list (string * connection) :=
  match SQL_PARAMS with
  | inl e => inl e
  | inr params =>
      if bool_decide (item.1 ∈ params.*1) then inr params
      else match resolve MASTER_CREDS item.2 with
           | inl e => inl e
           | inr c => inr (params ++ [(item.1, c)])
           end
  end.

Definition sql_params (MASTER_CREDS : creds) (found_configs : list config)
    : load_error + list (string * connection) :=
  foldl (λ SQL_PARAMS config,
           match databases config with
           | Some section => foldl (params_step MASTER_CREDS) SQL_PARAMS section
           | None => SQL_PARAMS
           end) (inr []) found_configs.

(** The module body: the error raised, or [MASTER_CREDS] and
    [SQL_PARAMS]. *)
Definition load (found_configs : list config)
    : load_error + (creds * list (string * connection)) :=
  match found_configs with
  | [] => inl NoConfigFile
  | _ =>
      match master_creds found_configs with
      | [] => inl NoCredentials
      | MASTER_CREDS =>
          match sql_params MASTER_CREDS found_configs with
          | inl e => inl e
          | inr SQL_PARAMS => inr (MASTER_CREDS, SQL_PARAMS)
          end
      end
  end.

(** The nicknames a file defines. *)
Definition nicknames (c : config) : list string :=
  match databases c with Some section => section.*1 | None => [] end.

(** The items of [databases] in the order the two loops meet them. *)
Definition items (found_configs : list config) : list (string * database) :=
  found_configs ≫= λ c, match databases c with Some section => section | None => [] end.

(** Credentials with a user name and a password that are not empty. *)
Definition valid (item : string * (option string * option string)) : Prop :=
  truthy item.2.1 = true ∧ truthy item.2.2 = true.

(** The items of [credentials] in the order the two loops meet them. *)
Definition credential_items (found_configs : list config) : list (string * credential) :=
  found_configs ≫= λ c, match credentials c with Some section => section | None => [] end.

Definition usable (item : string * credential) : bool :=
  truthy (c_username item.2) && truthy (c_password item.2).

(** [(type_, c)] is the first item of [l] for [type_] with a user name
    and a password that are not empty. *)
Definition first_usable (type_ : string) (c : credential)
    (l : list (string * credential)) : Prop :=
  ∃ l1 l2, l = l1 ++ (type_, c) :: l2
           ∧ usable (type_, c) = true
           ∧ Forall (λ item, item.1 = type_ → usable item = false) l1.

End Init.

(** Two files: the first one defines [jobs] without credentials, the
    second defines it again, with other values. *)
Definition site_config : Init.config :=
  Init.mkConfig
    (Some [(POSTGRES, Init.mkCredential (Some "ann") (Some "pw"))])
    (Some [("jobs", Init.mkDatabase "db1" "sales" 5432 POSTGRES None None)]).

Definition package_config : Init.config :=
  Init.mkConfig
    (Some [(POSTGRES, Init.mkCredential (Some "guest") (Some "guest"))])
    (Some [("jobs", Init.mkDatabase "db9" "demo" 5432 POSTGRES
                      (Some (Some "bob")) (Some (Some "secret")));
           ("scratch", Init.mkDatabase "local" "tmp.db" 0 SQLITE
                         (Some (Some "bob")) (Some None))]).

(** * Proofs *)

(** ** The order of [claim] *)

Lemma priority_above_irrefl p : priority_above p p = false.
Proof. destruct p as [a|]; simpl; [apply Z.ltb_irrefl | reflexivity]. Qed.

Lemma sorts_before_irrefl r : sorts_before r r = false.
Proof.
  unfold sorts_before. rewrite priority_above_irrefl, Z.ltb_irrefl.
  by rewrite andb_false_r.
Qed.

(** [sorts_before] unfolded into arithmetic, for [lia]. *)
Lemma sorts_before_true r1 r2 :
  sorts_before r1 r2 = true ↔
  match sq_priority r1, sq_priority r2 with
  | None, Some _ => True
  | Some a, Some b => b < a ∨ (a = b ∧ sq_id r1 < sq_id r2)
  | None, None => sq_id r1 < sq_id r2
  | Some _, None => False
  end.
Proof.
  unfold sorts_before, priority_above.
  destruct (sq_priority r1) as [a|], (sq_priority r2) as [b|]; simpl.
  - rewrite orb_true_iff, andb_true_iff, bool_decide_eq_true, !Z.ltb_lt.
    split; [intros [?|[[= ->] ?]]; auto | intros [?|[-> ?]]; auto].
  - split; [discriminate | tauto].
  - tauto.
  - apply Z.ltb_lt.
Qed.

Ltac order_cases :=
  repeat match goal with
  | H : sorts_before _ _ = true |- _ => apply sorts_before_true in H
  | H : sorts_before _ _ = false |- _ =>
      apply not_true_iff_false in H; rewrite sorts_before_true in H
  | |- sorts_before _ _ = true => apply sorts_before_true
  | |- sorts_before _ _ = false =>
      apply not_true_iff_false; rewrite sorts_before_true; intro
  end;
  repeat match goal with
  | |- context [sq_priority ?r] => destruct (sq_priority r)
  | H : context [sq_priority ?r] |- _ => destruct (sq_priority r)
  end;
  simplify_eq; try tauto; try lia.

Lemma sorts_before_asym r1 r2 : sorts_before r1 r2 = true → sorts_before r2 r1 = false.
Proof. intros. order_cases. Qed.

Lemma sorts_before_trans r1 r2 r3 :
  sorts_before r1 r2 = true → sorts_before r2 r3 = true → sorts_before r1 r3 = true.
Proof. intros. order_cases. Qed.

Lemma sorts_before_neg_trans r1 r2 r3 :
  sorts_before r1 r2 = false → sorts_before r2 r3 = false → sorts_before r1 r3 = false.
Proof. intros. order_cases. Qed.


Lemma insert_sorted_perm r l : insert_sorted r l ≡ₚ r :: l.
Proof.
  induction l as [|x l IH]; simpl; [done|].
  destruct (sorts_before x r); [|done].
  rewrite IH. apply Permutation_swap.
Qed.

Lemma order_by_perm l : order_by l ≡ₚ l.
Proof.
  induction l as [|x l IH]; simpl; [done|].
  by rewrite insert_sorted_perm, IH.
Qed.

Lemma insert_sorted_ordered r l : ordered l → ordered (insert_sorted r l).
Proof.
  unfold ordered. induction 1 as [|x l Hl IH Hx]; simpl.
  - repeat constructor.
  - destruct (sorts_before x r) eqn:E.
    + constructor; [done|].
      rewrite Forall_forall. intros y Hy.
      rewrite insert_sorted_perm in Hy.
      apply elem_of_cons in Hy as [->|Hy].
      * by apply sorts_before_asym.
      * rewrite Forall_forall in Hx. by apply Hx.
    + constructor; [by constructor|].
      constructor; [done|].
      rewrite Forall_forall in Hx |- *. intros y Hy.
      eapply sorts_before_neg_trans; [|exact E]. by apply Hx.
Qed.

Lemma order_by_ordered l : ordered (order_by l).
Proof.
  induction l; simpl; [constructor | by apply insert_sorted_ordered].
Qed.

Lemma insert_sorted_first r l :
  Forall (λ y, sorts_before y r = false) l → insert_sorted r l = r :: l.
Proof. destruct 1 as [|y l Hy _]; simpl; [done | by rewrite Hy]. Qed.

Lemma filter_insert_sorted (P : row → bool) r l :
  ordered l →
  List.filter P (insert_sorted r l) =
  if P r then insert_sorted r (List.filter P l) else List.filter P l.
Proof.
  unfold ordered. induction 1 as [|x l Hl IH Hx]; simpl.
  - by destruct (P r).
  - destruct (sorts_before x r) eqn:E; simpl.
    + rewrite IH. destruct (P x), (P r); simpl; by rewrite ?E.
    + destruct (P r); [|done].
      symmetry. apply insert_sorted_first.
      assert (Forall (λ y, sorts_before y r = false) l) as Hl'.
      { rewrite Forall_forall in Hx |- *. intros y Hy.
        eapply sorts_before_neg_trans; [by apply Hx | done]. }
      assert (∀ y, y ∈ List.filter P l → sorts_before y r = false) as Hf.
      { intros y Hy. rewrite Forall_forall in Hl'. apply Hl'.
        apply list_elem_of_In, filter_In in Hy as [Hy _]. by apply list_elem_of_In. }
      rewrite Forall_forall. intros y Hy.
      destruct (P x); [apply elem_of_cons in Hy as [->|Hy]|]; auto.
Qed.

Lemma filter_order_by (P : row → bool) l :
  List.filter P (order_by l) = order_by (List.filter P l).
Proof.
  induction l as [|x l IH]; simpl; [done|].
  rewrite filter_insert_sorted by apply order_by_ordered.
  rewrite IH. by destruct (P x).
Qed.


(** ** What one claim does *)


Lemma claim_unfold host now c q :
  claim host now c q =
  match order_by (select_where (claimable c) q) with
  | r :: _ => (update_where (id_is (sq_id r)) (set_claimed now host) q, sq_id r)
  | [] => (q, -1)
  end.
Proof. unfold claim. by destruct (order_by _). Qed.

Lemma claimable_set_claimed c now host r :
  no_top_level_or c → claimable c (set_claimed now host r) = false.
Proof. destruct c as [[d more]|]; cbn; [intros ->|]; reflexivity. Qed.

(** After a claim the claimable rows are the former ones less the row
    claimed. *)
Lemma select_after_claim c i now host q :
  no_top_level_or c →
  select_where (claimable c) (update_where (id_is i) (set_claimed now host) q) =
  List.filter (λ x, negb (id_is i x)) (select_where (claimable c) q).
Proof.
  intros Hno. unfold select_where, update_where. cbn [t_rows].
  induction (t_rows q) as [|x l IH]; [done|].
  rewrite fmap_cons. cbn [List.filter]. rewrite IH.
  destruct (id_is i x) eqn:E.
  - rewrite claimable_set_claimed by done.
    destruct (claimable c x); cbn [List.filter]; by rewrite ?E.
  - destruct (claimable c x); cbn [List.filter]; by rewrite ?E.
Qed.

Lemma filter_none (P : row → bool) l :
  Forall (λ x, P x = true) l → List.filter P l = l.
Proof. induction 1 as [|x l Hx _ IH]; simpl; [done | by rewrite Hx, IH]. Qed.


Lemma NoDup_ids_filter (P : row → bool) l :
  NoDup (sq_id <$> l) → NoDup (sq_id <$> List.filter P l).
Proof.
  induction l as [|x l IH]; simpl; [done|].
  rewrite NoDup_cons. intros [Hx Hl].
  destruct (P x); [|by apply IH].
  rewrite fmap_cons, NoDup_cons. split; [|by apply IH].
  intros Hin. apply Hx.
  apply list_elem_of_fmap in Hin as (y & -> & Hy).
  apply list_elem_of_fmap. exists y. split; [done|].
  apply list_elem_of_In, filter_In in Hy as [Hy _]. by apply list_elem_of_In.
Qed.

(** With distinct keys, the rows in order after the first one has been
    claimed are the rest of the rows in order. *)
Lemma order_after_claim c now host q r rest :
  no_top_level_or c →
  NoDup (sq_id <$> select_where (claimable c) q) →
  order_by (select_where (claimable c) q) = r :: rest →
  order_by (select_where (claimable c)
              (update_where (id_is (sq_id r)) (set_claimed now host) q)) = rest.
Proof.
  intros Hno Hn Ho.
  rewrite select_after_claim by done. rewrite <- filter_order_by, Ho. simpl.
  unfold id_is at 1. rewrite Z.eqb_refl. simpl.
  apply filter_none. rewrite Forall_forall. intros x Hx.
  apply negb_true_iff, Z.eqb_neq. intros Heq.
  assert (NoDup (sq_id <$> r :: rest)) as Hn'.
  { rewrite <- Ho. by rewrite order_by_perm. }
  rewrite fmap_cons, NoDup_cons in Hn'. destruct Hn' as [Hn' _].
  apply Hn'. rewrite <- Heq. apply list_elem_of_fmap. eauto.
Qed.

Lemma claims_served callers c q :
  no_top_level_or c →
  NoDup (sq_id <$> select_where (claimable c) q) →
  claims callers c q =
  take (length callers) (sq_id <$> order_by (select_where (claimable c) q))
  ++ replicate (length callers - length (order_by (select_where (claimable c) q))) (-1).
Proof.
  intros Hno. revert q. induction callers as [|[host now] callers IH]; intros q Hn; [done|].
  simpl claims. rewrite claim_unfold.
  destruct (order_by (select_where (claimable c) q)) as [|r rest] eqn:Ho; simpl.
  - rewrite IH, Ho by done. simpl. by rewrite Nat.sub_0_r, take_nil.
  - rewrite IH.
    + by rewrite (order_after_claim _ _ _ _ _ _ Hno Hn Ho).
    + rewrite select_after_claim by done. by apply NoDup_ids_filter.
Qed.

(** Under the primary key an UPDATE by key rewrites the row that has the
    key and no other. *)
Lemma update_key f q r :
  primary_key q → r ∈ t_rows q →
  update_where (id_is (sq_id r)) f q =
  mkTable (t_columns q) ((λ x, if decide (x = r) then f r else x) <$> t_rows q) (t_seq q).
Proof.
  unfold primary_key, ids, update_where. intros Hn Hr. f_equal.
  apply list_fmap_ext. intros k x Hx. unfold id_is.
  destruct (decide (x = r)) as [->|Hne]; [by rewrite Z.eqb_refl|].
  destruct (sq_id x =? sq_id r) eqn:E; [|done].
  apply Z.eqb_eq in E. exfalso. apply Hne.
  apply list_elem_of_lookup in Hr as [j Hj].
  assert (k = j) as ->; [|congruence].
  eapply NoDup_lookup; [exact Hn| |].
  - rewrite list_lookup_fmap, Hx. reflexivity.
  - rewrite list_lookup_fmap, Hj. simpl. by rewrite E.
Qed.






(** The scenario of the specification: priorities 5, 9, 1 are handed out
    as 9, 5, 1, then nothing. *)
Example claims_5_9_1 :
  claims [("w1", 200); ("w2", 201); ("w3", 202); ("w4", 203)] None backlog_5_9_1
  = [2; 1; 3; -1].
Proof. vm_compute. reflexivity. Qed.

(** ** What an insertion does *)

Lemma insert_record_Some now df_columns rec q q' :
  insert_record now df_columns rec q = Some q' →
  ∃ r, t_rows q' = t_rows q ++ [r]
       ∧ t_columns q' = t_columns q
       ∧ (sq_id r ∉ ids q)
       ∧ (match given df_columns rec SQ_ID with
          | None => sq_id r = t_seq q ∧ t_seq q' = t_seq q + 1
          | Some v => v = CInt (sq_id r) ∧ t_seq q' = t_seq q
          end)
       ∧ given df_columns rec SQ_STATUS = Some (CStr (sq_status r))
       ∧ as_int (given df_columns rec SQ_PRIORITY) = Some (sq_priority r)
       ∧ as_text (given df_columns rec SQ_PUT_HOSTNAME) = Some (sq_put_hostname r)
       ∧ payload r = filter (λ kv : string * cell,
                               kv.1 ∈ t_columns q ∧ kv.1 ∈ df_columns) rec.
Proof.
  unfold insert_record. intros H.
  destruct (given df_columns rec SQ_ID) as [[]|] eqn:Eid; simplify_option_eq;
    repeat case_match; simplify_option_eq;
    eexists; repeat split; simpl; eauto.
Qed.

Lemma insert_records_Some now df_columns recs q q' :
  insert_records now df_columns recs q = Some q' →
  ∃ new, t_rows q' = t_rows q ++ new
         ∧ t_columns q' = t_columns q
         ∧ (primary_key q → primary_key q')
         ∧ Forall2 (λ rec r,
              given df_columns rec SQ_STATUS = Some (CStr (sq_status r))
              ∧ as_int (given df_columns rec SQ_PRIORITY) = Some (sq_priority r)
              ∧ as_text (given df_columns rec SQ_PUT_HOSTNAME) = Some (sq_put_hostname r)
              ∧ payload r = filter (λ kv : string * cell,
                                      kv.1 ∈ t_columns q ∧ kv.1 ∈ df_columns) rec)
             recs new.
Proof.
  revert q. induction recs as [|rec recs IH]; intros q H; simpl in H.
  - simplify_eq. exists []. rewrite app_nil_r. repeat split; auto.
  - destruct (insert_record now df_columns rec q) as [q1|] eqn:E1; [|done].
    simpl in H. apply IH in H as (new & Hrows & Hcols & Hpk & Hall).
    apply insert_record_Some in E1
      as (r & Hr & Hc & Hfresh & _ & Hst & Hpr & Hho & Hpay).
    exists (r :: new). split; [|split; [|split]].
    + by rewrite Hrows, Hr, <- app_assoc.
    + congruence.
    + intros Hq. apply Hpk. unfold primary_key, ids in *.
      rewrite Hr, fmap_app. apply NoDup_app. repeat split; [done| |].
      * intros i Hi Hi'. apply list_elem_of_singleton in Hi'. by subst.
      * apply NoDup_singleton.
    + constructor; [done|].
      eapply Forall2_impl; [exact Hall|]. simpl. intros ?? (?&?&?&?).
      by rewrite <- Hc.
Qed.

(** ** What [put] stores *)

Lemma lookup_key_filter (Q : string → Prop) `{∀ c, Decision (Q c)}
    (m : gmap string cell) (c : string) :
  filter (λ kv : string * cell, Q kv.1) m !! c = if decide (Q c) then m !! c else None.
Proof.
  destruct (decide (Q c)) as [Hq|Hq].
  - destruct (m !! c) as [v|] eqn:E.
    + by apply map_lookup_filter_Some.
    + apply map_lookup_filter_None. left. done.
  - apply map_lookup_filter_None. right. intros v _. done.
Qed.

Lemma elem_of_columns_df_set c c' v df :
  c ∈ columns (df_set c' v df) ↔ c = c' ∨ c ∈ columns df.
Proof.
  unfold df_set. simpl. case_bool_decide as Hc.
  - split; [auto | intros [->|?]; done].
  - rewrite elem_of_app, list_elem_of_singleton. tauto.
Qed.

Lemma given_df_set c c' v df rec :
  given (columns (df_set c' v df)) (<[c' := v]> rec) c =
  if decide (c = c') then Some v else given (columns df) rec c.
Proof.
  unfold given. destruct (decide (c = c')) as [->|Hne].
  - rewrite bool_decide_true by (apply elem_of_columns_df_set; auto).
    by rewrite lookup_insert_eq.
  - rewrite lookup_insert_ne by done.
    assert (c ∈ columns (df_set c' v df) ↔ c ∈ columns df) as Hiff
      by (rewrite elem_of_columns_df_set; split; [intros [?|?] | right]; done).
    repeat case_bool_decide; try tauto; reflexivity.
Qed.

Lemma given_intersection df sql_columns rec c :
  c ∈ sql_columns →
  given (columns (get_df_interesection df sql_columns))
        (filter (λ kv : string * cell, kv.1 ∈ sql_columns) rec) c
  = given (columns df) rec c.
Proof.
  intros Hc. unfold given, get_df_interesection. cbn [columns].
  pose proof (lookup_key_filter (λ k, k ∈ sql_columns) rec c) as Hf.
  cbv beta in Hf. rewrite Hf, decide_True by done.
  assert (c ∈ filter (λ c0, c0 ∈ sql_columns) (columns df) ↔ c ∈ columns df) as Hiff
    by (rewrite list_elem_of_filter; tauto).
  repeat case_bool_decide; try tauto; reflexivity.
Qed.

Lemma meta_in_sql_columns c l : c ∈ meta_columns → c ∈ meta_columns ++ l.
Proof. intros. apply elem_of_app. auto. Qed.

(** The frame [put] hands to [append_to_table]. *)
Lemma put_unfold host now df priority_included priority q :
  put host now df priority_included priority q =
  let pi := priority_included && bool_decide (SQ_PRIORITY ∈ columns df) in
  let p := Z.max MIN_PRIORITY (Z.min MAX_PRIORITY priority) in
  let df1 := if pi then df else df_set SQ_PRIORITY (CInt p) df in
  append_to_table now
    (df_set SQ_PUT_HOSTNAME (CStr host) (df_set SQ_STATUS (CStr STATUS_AVAILABLE) df1)) q.
Proof.
  unfold put. cbv zeta.
  replace (if bool_decide (SQ_PRIORITY ∈ columns df) then priority_included else false)
    with (priority_included && bool_decide (SQ_PRIORITY ∈ columns df))
    by (by destruct priority_included, (bool_decide _)).
  replace (Z.max MIN_PRIORITY (Z.min MAX_PRIORITY priority))
    with (if (if MAX_PRIORITY <? priority then MAX_PRIORITY else priority) <? MIN_PRIORITY
          then MIN_PRIORITY
          else if MAX_PRIORITY <? priority then MAX_PRIORITY else priority); [done|].
  unfold MAX_PRIORITY, MIN_PRIORITY.
  repeat (case_match; try (apply Z.ltb_lt in H)); try (apply Z.ltb_ge in H); lia.
Qed.

(** Membership of a given name in a given list of names. *)
Ltac listed := apply (bool_decide_unpack _); vm_compute; exact I.

Lemma not_meta c :
  c ∉ meta_columns →
  c ≠ SQ_PRIORITY ∧ c ≠ SQ_STATUS ∧ c ≠ SQ_PUT_HOSTNAME.
Proof. intros Hc. repeat split; intros ->; apply Hc; listed. Qed.

(** Settle the comparisons of two given column names in [H]. *)
Ltac decide_names H :=
  repeat match type of H with
  | context [decide (?a = ?b)] =>
      let Hd := fresh in
      destruct (decide (a = b)) as [Hd|Hd];
      [ try (by (vm_compute in Hd; discriminate Hd))
      | try (by (exfalso; apply Hd)) ];
      clear Hd
  end.

(** The value that reaches a payload column through the frame [put]
    builds from [df0]. *)
Lemma payload_cell (df0 : DataFrame) (rec0 : gmap string cell) (q : table)
    (vs vh : cell) (c : string) :
  let frame := df_set SQ_PUT_HOSTNAME vh (df_set SQ_STATUS vs df0) in
  let sql := meta_columns ++ t_columns q in
  c ∈ t_columns q → c ≠ SQ_STATUS → c ≠ SQ_PUT_HOSTNAME →
  default CNull
    (filter (λ kv : string * cell,
               kv.1 ∈ t_columns q
               ∧ kv.1 ∈ columns (get_df_interesection frame sql))
       (filter (λ kv : string * cell, kv.1 ∈ sql)
          (<[SQ_PUT_HOSTNAME := vh]> (<[SQ_STATUS := vs]> rec0))) !! c)
  = if bool_decide (c ∈ columns df0) then default CNull (rec0 !! c) else CNull.
Proof.
  intros frame sql Hc Hs Hh.
  assert (c ∈ sql) as Hsql by (apply elem_of_app; auto).
  assert (c ∈ columns (get_df_interesection frame sql) ↔ c ∈ columns df0) as Hiff.
  { unfold get_df_interesection, frame. cbn [columns].
    rewrite list_elem_of_filter, !elem_of_columns_df_set. tauto. }
  pose proof (lookup_key_filter
    (λ k, k ∈ t_columns q ∧ k ∈ columns (get_df_interesection frame sql))) as Hf.
  cbv beta in Hf. rewrite Hf. clear Hf.
  pose proof (lookup_key_filter (λ k, k ∈ sql)) as Hf.
  cbv beta in Hf. rewrite Hf. clear Hf.
  rewrite (decide_True (P := c ∈ sql)) by done.
  rewrite !lookup_insert_ne by done.
  case_decide; case_bool_decide; try tauto; reflexivity.
Qed.

Lemma as_int_clamped priority :
  as_int (Some (CInt (Z.max MIN_PRIORITY (Z.min MAX_PRIORITY priority))))
  = Some (Some (Z.max MIN_PRIORITY (Z.min MAX_PRIORITY priority))).
Proof.
  unfold as_int, in_int32, MIN_PRIORITY, MAX_PRIORITY.
  assert ((-2147483648 <=? Z.max 1 (Z.min 10 priority)) = true) as ->
    by (apply Z.leb_le; lia).
  assert ((Z.max 1 (Z.min 10 priority) <=? 2147483647) = true) as ->
    by (apply Z.leb_le; lia).
  done.
Qed.

Lemma put_Some host now df priority_included priority q q' :
  put host now df priority_included priority q = Some q' →
  ∃ new, t_rows q' = t_rows q ++ new
         ∧ t_columns q' = t_columns q
         ∧ (primary_key q → primary_key q')
         ∧ Forall2 (put_row host df priority_included priority q) (records df) new.
Proof.
  rewrite put_unfold. cbv zeta. unfold append_to_table.
  set (pi := priority_included && bool_decide (SQ_PRIORITY ∈ columns df)).
  set (p := Z.max MIN_PRIORITY (Z.min MAX_PRIORITY priority)).
  set (sql := meta_columns ++ t_columns q).
  intros H. apply insert_records_Some in H as (new & Hrows & Hcols & Hpk & Hall).
  exists new. repeat (split; [done|]).
  assert (∀ c, c ∈ meta_columns → c ∈ sql) as Hmeta
    by (intros; by apply meta_in_sql_columns).
  unfold put_row. fold pi.
  destruct pi eqn:Epi.
  - (* the frame's own priorities *)
    cbn [get_df_interesection records df_set] in Hall.
    rewrite !Forall2_fmap_l in Hall.
    eapply Forall2_impl; [exact Hall|]. cbv beta.
    intros rec r (Hst & Hpr & Hho & Hpay).
    rewrite given_intersection in Hst by (apply Hmeta; listed).
    rewrite given_intersection in Hpr by (apply Hmeta; listed).
    rewrite given_intersection in Hho by (apply Hmeta; listed).
    rewrite !given_df_set in Hst. rewrite !given_df_set in Hpr.
    rewrite !given_df_set in Hho.
    decide_names Hst. decide_names Hpr. decide_names Hho.
    injection Hst as Hst. cbn in Hho. injection Hho as Hho.
    apply andb_true_iff in Epi as [_ Hin%bool_decide_eq_true].
    unfold given in Hpr. rewrite bool_decide_true in Hpr by done.
    repeat (split; [done|]).
    intros c Hc Hn. apply not_meta in Hn as (_ & ? & ?).
    unfold row_cell. rewrite Hpay. by apply payload_cell.
  - (* the default priority, brought into range *)
    cbn [get_df_interesection records df_set] in Hall.
    rewrite !Forall2_fmap_l in Hall.
    eapply Forall2_impl; [exact Hall|]. cbv beta.
    intros rec r (Hst & Hpr & Hho & Hpay).
    rewrite given_intersection in Hst by (apply Hmeta; listed).
    rewrite given_intersection in Hpr by (apply Hmeta; listed).
    rewrite given_intersection in Hho by (apply Hmeta; listed).
    rewrite !given_df_set in Hst. rewrite !given_df_set in Hpr.
    rewrite !given_df_set in Hho.
    decide_names Hst. decide_names Hpr. decide_names Hho.
    injection Hst as Hst. cbn in Hho. injection Hho as Hho.
    unfold p in Hpr. rewrite as_int_clamped in Hpr. injection Hpr as Hpr. fold p in Hpr.
    repeat (split; [done|]). split.
    + exists p. split; [done|]. unfold p, MIN_PRIORITY, MAX_PRIORITY. lia.
    + intros c Hc Hn. apply not_meta in Hn as (Hp & ? & ?).
      unfold row_cell. rewrite Hpay.
      etrans; [by apply (payload_cell (df_set SQ_PRIORITY (CInt p) df)
                           (<[SQ_PRIORITY := CInt p]> rec) q)|].
      rewrite lookup_insert_ne by done.
      assert (c ∈ columns (df_set SQ_PRIORITY (CInt p) df) ↔ c ∈ columns df) as Hiff
        by (rewrite elem_of_columns_df_set; tauto).
      repeat case_bool_decide; try tauto; reflexivity.
Qed.

(** C10. Every row inserted by [put] is AVAILABLE and carries the calling
    host as [sq_put_hostname], whatever [sq_status] or [sq_put_hostname]
    column the caller's frame carries. *)
Theorem put_stamps (host : string) (now : Z) (df : DataFrame)
    (priority_included : bool) (priority : Z) (q q' : table) :
  put host now df priority_included priority q = Some q' →
  t_rows q' = t_rows q ++ inserted q q'
  ∧ length (inserted q q') = length (records df)
  ∧ Forall (λ r, sq_status r = STATUS_AVAILABLE ∧ sq_put_hostname r = Some host)
           (inserted q q').
Proof.
  intros H. apply put_Some in H as (new & Hrows & _ & _ & Hall).
  assert (inserted q q' = new) as ->.
  { unfold inserted. by rewrite Hrows, drop_app_length. }
  split; [done|]. split.
  - symmetry. by eapply Forall2_length.
  - eapply Forall2_Forall_r; [exact Hall|].
    apply Forall_forall. intros rec _ r (? & ? & _). done.
Qed.

Lemma put_stamps_witness :
  put "producer" 100 forged_frame false 3 (empty_queue ["job"]) = Some forged_put
  ∧ t_rows forged_put = t_rows (empty_queue ["job"]) ++ inserted (empty_queue ["job"]) forged_put
  ∧ length (inserted (empty_queue ["job"]) forged_put) = length (records forged_frame)
  ∧ Forall (λ r, sq_status r = STATUS_AVAILABLE ∧ sq_put_hostname r = Some "producer")
           (inserted (empty_queue ["job"]) forged_put).
Proof.
  assert (put "producer" 100 forged_frame false 3 (empty_queue ["job"]) = Some forged_put) as H
    by (vm_compute; reflexivity).
  split; [exact H|].
  exact (put_stamps "producer" 100 forged_frame false 3 (empty_queue ["job"]) forged_put H).
Defined.

(** ** Priorities *)

(** When the priority is the default given to the whole batch, every row
    inserted has a priority between [MIN_PRIORITY] and [MAX_PRIORITY]. *)
Lemma put_default_priority_in_range host now df priority_included priority q q' :
  priority_included = false ∨ SQ_PRIORITY ∉ columns df →
  put host now df priority_included priority q = Some q' →
  Forall (λ r, ∃ z, sq_priority r = Some z ∧ MIN_PRIORITY ≤ z ≤ MAX_PRIORITY)
         (inserted q q').
Proof.
  intros Hpi H. apply put_Some in H as (new & Hrows & _ & _ & Hall).
  assert (inserted q q' = new) as ->.
  { unfold inserted. by rewrite Hrows, drop_app_length. }
  eapply Forall2_Forall_r; [exact Hall|].
  apply Forall_forall. intros rec _ r (_ & _ & Hp & _).
  replace (priority_included && bool_decide (SQ_PRIORITY ∈ columns df)) with false in Hp.
  - destruct Hp as (z & ? & ? & _). eauto.
  - destruct Hpi as [->|Hn]; [done|].
    rewrite (bool_decide_false _ Hn). by rewrite andb_false_r.
Qed.

(** When the frame brings its own priority column, the rows are stored
    with the priorities of the frame. *)
Lemma put_frame_priority host now df priority q q' :
  SQ_PRIORITY ∈ columns df →
  put host now df true priority q = Some q' →
  Forall2 (λ rec r, as_int (Some (default CNull (rec !! SQ_PRIORITY)))
                    = Some (sq_priority r))
          (records df) (inserted q q').
Proof.
  intros Hin H. apply put_Some in H as (new & Hrows & _ & _ & Hall).
  assert (inserted q q' = new) as ->.
  { unfold inserted. by rewrite Hrows, drop_app_length. }
  eapply Forall2_impl; [exact Hall|]. intros rec r (_ & _ & Hp & _).
  by rewrite bool_decide_true in Hp.
Qed.

(** C5. A batch that brings its own [sq_priority] column is stored with
    the priorities it brings: 50 and -3 stay 50 and -3. *)
Theorem put_keeps_frame_priority :
  ∃ q', put "producer" 100 out_of_range_frame true 1 (empty_queue ["job"]) = Some q'
        ∧ sq_priority <$> inserted (empty_queue ["job"]) q' = [Some 50; Some (-3)].
Proof. eexists. split; vm_compute; reflexivity. Qed.

(** ** Keys assigned by the store *)












(** ** Selecting and updating by key *)

Lemma filter_key_absent i l :
  i ∉ sq_id <$> l → List.filter (id_is i) l = [].
Proof.
  induction l as [|x l IH]; [done|]. rewrite fmap_cons, not_elem_of_cons.
  intros [Hx Hl]. simpl. unfold id_is at 1.
  destruct (sq_id x =? i) eqn:E; [apply Z.eqb_eq in E; congruence | by apply IH].
Qed.

Lemma filter_key_present r l :
  NoDup (sq_id <$> l) → r ∈ l → List.filter (id_is (sq_id r)) l = [r].
Proof.
  induction l as [|x l IH]; [by intros _ ?%elem_of_nil|].
  rewrite fmap_cons, NoDup_cons. intros [Hx Hn] Hr. simpl. unfold id_is at 1.
  apply elem_of_cons in Hr as [->|Hr].
  - rewrite Z.eqb_refl. by rewrite filter_key_absent.
  - destruct (sq_id x =? sq_id r) eqn:E.
    + apply Z.eqb_eq in E. exfalso. apply Hx. rewrite E.
      apply list_elem_of_fmap. eauto.
    + by apply IH.
Qed.

Lemma select_key q r :
  primary_key q → r ∈ t_rows q → select_where (id_is (sq_id r)) q = [r].
Proof. intros. by apply filter_key_present. Qed.

Lemma select_key_absent q i : i ∉ ids q → select_where (id_is i) q = [].
Proof. apply filter_key_absent. Qed.

(** Selecting by key after an UPDATE by the same key. *)
Lemma select_update_key i f q :
  (∀ r, sq_id (f r) = sq_id r) →
  select_where (id_is i) (update_where (id_is i) f q) = f <$> select_where (id_is i) q.
Proof.
  intros Hf. unfold select_where, update_where. cbn [t_rows].
  induction (t_rows q) as [|x l IH]; [done|].
  rewrite fmap_cons. cbn [List.filter].
  destruct (id_is i x) eqn:E.
  - unfold id_is at 1. rewrite Hf. fold (id_is i x). rewrite E.
    by rewrite fmap_cons, IH.
  - by rewrite E, IH.
Qed.

(** Selecting by key after an UPDATE that keeps keys, by another
    condition. *)
Lemma find_row_update w f i q :
  (∀ r, sq_id (f r) = sq_id r) →
  find_row i (update_where w f q) =
  (λ r, if w r then f r else r) <$> find_row i q.
Proof.
  intros Hf. unfold find_row, select_where, update_where. cbn [t_rows].
  induction (t_rows q) as [|x l IH]; [done|].
  rewrite fmap_cons. cbn [List.filter].
  assert (id_is i (if w x then f x else x) = id_is i x) as ->.
  { unfold id_is. destruct (w x); by rewrite ?Hf. }
  destruct (id_is i x); [done | exact IH].
Qed.

(** ** Introspection *)

Lemma eq_literal_COMPLETED : eq_literal STATUS_COMPLETED = Some STATUS_COMPLETED.
Proof. vm_compute. reflexivity. Qed.

(** C8. [get_status] returns the status of the row stored under the key,
    COMPLETED after [finish] with COMPLETED, and DOESNOTEXIST, as a
    value, when no row has the key. *)
Theorem get_status_lookup (row_id : Z) (q : table) :
  primary_key q → status_lookup row_id q.
Proof.
  intros Hpk. unfold status_lookup, get_status. split; [|split].
  - intros r Hr <-. by rewrite select_key.
  - intros Hi. by rewrite select_key_absent.
  - intros Hi now. unfold finish. rewrite eq_literal_COMPLETED. simpl.
    eexists. split; [done|].
    rewrite select_update_key by done.
    apply list_elem_of_fmap in Hi as (r & -> & Hr).
    by rewrite select_key.
Qed.

Lemma get_status_lookup_witness :
  primary_key backlog_5_9_1 ∧ status_lookup 2 backlog_5_9_1.
Proof.
  assert (primary_key backlog_5_9_1) as H.
  { unfold primary_key. apply (bool_decide_unpack _). vm_compute. exact I. }
  split; [exact H | exact (get_status_lookup 2 backlog_5_9_1 H)].
Defined.

Example get_status_unknown : get_status 7 backlog_5_9_1 = "DOESNOTEXIST".
Proof. vm_compute. reflexivity. Qed.

(** ** Round trip *)



(** ** Recovery scanner *)

Lemma hours_exceed_as_written now t h :
  hours_exceed now t (format_f h) = true ↔ older_than now t (as_written h).
Proof.
  unfold hours_exceed, older_than, as_written. simpl. rewrite Z.ltb_lt. lia.
Qed.

Lemma format_f_whole h : whole_millionths h → Qnum h * 1000000 = Zpos (Qden h) * format_f h.
Proof.
  unfold whole_millionths, format_f. intros Hr. cbv zeta. rewrite Hr.
  assert ((2 * 0 <? Z.pos (Qden h)) = true) as -> by (apply Z.ltb_lt; lia).
  by apply Z.div_exact.
Qed.

Lemma older_than_whole now t h :
  whole_millionths h → older_than now t (as_written h) ↔ older_than now t h.
Proof.
  intros Hw%format_f_whole. unfold older_than, as_written. simpl.
  pose proof (Pos2Z.is_pos (Qden h)). nia.
Qed.

Lemma timed_out_spec now t_ip t_cl r :
  timed_out now (format_f t_ip) (format_f t_cl) r = true
  ↔ lease_expired now (as_written t_ip) (as_written t_cl) r.
Proof.
  unfold timed_out, lease_expired, status_is.
  rewrite orb_true_iff, !andb_true_iff, !bool_decide_eq_true.
  split.
  - intros [[Hs Ht]|[Hs Ht]]; [right|left]; (split; [done|]).
    + destruct (sq_get_time r) as [t|]; [|done].
      exists t. split; [done|]. by apply hours_exceed_as_written.
    + destruct (sq_claim_time r) as [t|]; [|done].
      exists t. split; [done|]. by apply hours_exceed_as_written.
  - intros [[Hs (t & -> & Ht)]|[Hs (t & -> & Ht)]]; [right|left];
      (split; [done|]); by apply hours_exceed_as_written.
Qed.

Lemma lease_expired_iff now ip cl ip' cl' r :
  (∀ t, older_than now t ip ↔ older_than now t ip') →
  (∀ t, older_than now t cl ↔ older_than now t cl') →
  lease_expired now ip cl r ↔ lease_expired now ip' cl' r.
Proof.
  intros Hip Hcl. unfold lease_expired.
  split; intros [[Hs (t & Ht & Ho)]|[Hs (t & Ht & Ho)]].
  - left. split; [done|]. exists t. split; [done|]. by apply Hcl.
  - right. split; [done|]. exists t. split; [done|]. by apply Hip.
  - left. split; [done|]. exists t. split; [done|]. by apply Hcl.
  - right. split; [done|]. exists t. split; [done|]. by apply Hip.
Qed.

(** ** Destroying the rows that satisfy a condition *)

Lemma same_key q r r' :
  primary_key q → r ∈ t_rows q → r' ∈ t_rows q → sq_id r = sq_id r' → r = r'.
Proof.
  intros Hpk Hr Hr' Heq.
  pose proof (select_key q r Hpk Hr) as H1.
  pose proof (select_key q r' Hpk Hr') as H2.
  rewrite Heq in H1. congruence.
Qed.

Lemma update_destroys (w : row → bool) (P : row → Prop) q :
  (∀ r, r ∈ t_rows q → (w r = true ↔ P r)) →
  destroys_exactly P q (update_where w (set_status STATUS_DESTROYED) q).
Proof.
  intros Hw. unfold destroys_exactly, update_where. cbn [t_columns t_seq t_rows].
  repeat (split; [done|]).
  apply Forall2_fmap_r, Forall_Forall2_diag, Forall_forall.
  intros r Hr. specialize (Hw r Hr). unfold compose.
  destruct (w r); split; intros HP.
  - reflexivity.
  - exfalso. apply HP. by apply Hw.
  - apply Hw in HP. discriminate.
  - reflexivity.
Qed.

Lemma destroys_none (P : row → Prop) q :
  (∀ r, r ∈ t_rows q → ¬ P r) → destroys_exactly P q q.
Proof.
  intros Hn. unfold destroys_exactly. repeat (split; [done|]).
  apply Forall_Forall2_diag, Forall_forall. intros r Hr. split; [|done].
  intros HP. by apply Hn in HP.
Qed.

Lemma destroys_exactly_iff (P P' : row → Prop) q q' :
  (∀ r, P r ↔ P' r) → destroys_exactly P q q' → destroys_exactly P' q q'.
Proof.
  intros Hiff (Hc & Hs & HF). repeat (split; [done|]).
  eapply Forall2_impl; [exact HF|]. simpl. intros r r' [H1 H2].
  split; intros HP; [apply H1 | apply H2]; by rewrite Hiff.
Qed.

Lemma recovers_iff now ip cl ip' cl' q res :
  (∀ t, older_than now t ip ↔ older_than now t ip') →
  (∀ t, older_than now t cl ↔ older_than now t cl') →
  recovers now ip cl q res → recovers now ip' cl' q res.
Proof.
  intros Hip Hcl [Hd Hm]. split.
  - eapply destroys_exactly_iff; [|exact Hd].
    intros r. by apply lease_expired_iff.
  - intros r. rewrite Hm. by rewrite (lease_expired_iff now ip cl ip' cl' r).
Qed.

Lemma elem_of_select_where (w : row → bool) q r :
  r ∈ select_where w q ↔ r ∈ t_rows q ∧ w r = true.
Proof. unfold select_where. by rewrite list_elem_of_In, filter_In, <- list_elem_of_In. Qed.

Lemma scanner_recovers_as_written now t_ip t_cl q :
  primary_key q →
  recovers now (as_written t_ip) (as_written t_cl) q
           (cleanup_long_running_rows now t_ip t_cl q).
Proof.
  intros Hpk. unfold cleanup_long_running_rows.
  set (w := timed_out now (format_f t_ip) (format_f t_cl)).
  assert (∀ r, r ∈ select_where w q ↔
               r ∈ t_rows q ∧ lease_expired now (as_written t_ip) (as_written t_cl) r)
    as Hsel.
  { intros r. rewrite elem_of_select_where. unfold w. by rewrite timed_out_spec. }
  destruct (select_where w q) as [|x l] eqn:E.
  - split; [|exact Hsel]. apply destroys_none. intros r Hr He.
    eapply elem_of_nil, Hsel. eauto.
  - split; [|exact Hsel]. cbn [fst]. apply update_destroys. intros r Hr.
    unfold id_in. rewrite bool_decide_eq_true, elem_of_remove_dups, list_elem_of_fmap.
    split.
    + intros (r' & Heq & Hr'). apply Hsel in Hr' as [Hr' He].
      by rewrite (same_key q r r' Hpk Hr Hr' Heq).
    + intros He. exists r. split; [done|]. apply Hsel. done.
Qed.

(** C2. The recovery scanner sets to DESTROYED exactly the rows that are
    CLAIMED with a claim time, or IN_PROGRESS with a get time, older than
    the respective time-out as the statement carries it (six digits after
    the point), changes nothing else, and returns exactly those rows; for
    time-outs that are whole millionths of an hour this is the time-out
    itself. *)
Theorem cleanup_recovers (now : Z) (t_ip t_cl : Q) (q : table) :
  primary_key q →
  recovers_as_written now t_ip t_cl q (cleanup_long_running_rows now t_ip t_cl q).
Proof.
  intros Hpk. split; [by apply scanner_recovers_as_written|].
  intros Hip Hcl. eapply recovers_iff; [| |by apply scanner_recovers_as_written].
  - intros t. by apply older_than_whole.
  - intros t. by apply older_than_whole.
Qed.

Lemma cleanup_recovers_witness :
  primary_key claimed_once
  ∧ recovers_as_written 3600000001 (8 # 1) (1 # 1) claimed_once
      (cleanup_long_running_rows 3600000001 (8 # 1) (1 # 1) claimed_once).
Proof.
  assert (primary_key claimed_once) as H.
  { unfold primary_key. apply (bool_decide_unpack _). vm_compute. exact I. }
  split; [exact H | exact (cleanup_recovers 3600000001 (8 # 1) (1 # 1) claimed_once H)].
Defined.

(** The scenario of the specification: a row claimed and left alone is
    DESTROYED and returned once the claimed time-out (one hour) has
    passed, and not before. *)
Example cleanup_after_an_hour :
  sq_status <$> t_rows (cleanup_long_running_rows 3600000001 (8 # 1) (1 # 1) claimed_once).1
  = [STATUS_DESTROYED]
  ∧ sq_id <$> (cleanup_long_running_rows 3600000001 (8 # 1) (1 # 1) claimed_once).2 = [1]
  ∧ cleanup_long_running_rows 3600000000 (8 # 1) (1 # 1) claimed_once = (claimed_once, []).
Proof. repeat split; vm_compute; reflexivity. Qed.

(** A time-out of 2^-21 hours (1.7 ms) is written as [0.000000]: a row
    claimed one millisecond ago, whose lease has not run out, is DESTROYED
    and returned. *)
Lemma cleanup_rounds_timeout :
  ∃ r, t_rows claimed_once = [r]
       ∧ ¬ lease_expired 1000 (8 # 1) (1 # 2097152) r
       ∧ sq_status <$> t_rows (cleanup_long_running_rows 1000 (8 # 1) (1 # 2097152)
                                 claimed_once).1 = [STATUS_DESTROYED]
       ∧ (cleanup_long_running_rows 1000 (8 # 1) (1 # 2097152) claimed_once).2 = [r].
Proof.
  eexists. split; [vm_compute; reflexivity|]. split; [|split; vm_compute; reflexivity].
  intros [[_ (t & Ht & Ho)]|[Hs _]].
  - vm_compute in Ht. injection Ht as <-. vm_compute in Ho. discriminate.
  - vm_compute in Hs. discriminate.
Qed.

(** ** Reading back a list of statuses *)

Lemma string_app_cons (c : ascii) (s t : string) : String c s +:+ t = String c (s +:+ t).
Proof. reflexivity. Qed.

Lemma string_app_assoc (s1 s2 s3 : string) : (s1 +:+ s2) +:+ s3 = s1 +:+ s2 +:+ s3.
Proof.
  induction s1 as [|c s1 IH]; [done|]. by rewrite !string_app_cons, IH.
Qed.

Lemma string_app_nil_r (s : string) : s +:+ EmptyString = s.
Proof. induction s as [|c s IH]; [done|]. by rewrite string_app_cons, IH. Qed.

(** Inside a literal, a text without quotes is taken as it is. *)
Lemma read_plain acc s rest :
  plain s = true →
  read_literals (InLit acc) (s +:+ rest) = read_literals (InLit (acc +:+ s)) rest.
Proof.
  revert acc. induction s as [|c s IH]; intros acc Hp.
  - by rewrite string_app_nil_r.
  - simpl in Hp. apply andb_true_iff in Hp as [Hc Hs].
    apply negb_true_iff in Hc. rewrite string_app_cons. cbn [read_literals].
    rewrite Hc, IH by done.
    unfold snoc. by rewrite string_app_assoc.
Qed.

Lemma read_joined acc x l :
  Forall (λ s, plain s = true) (x :: l) →
  read_literals (InLit acc) (String.concat "', '" (x :: l) +:+ "'")
  = Some ((acc +:+ x) :: l).
Proof.
  revert acc x. induction l as [|y l IH]; intros acc x Hp.
  - apply Forall_cons in Hp as [Hx _]. cbn [String.concat].
    by rewrite read_plain.
  - apply Forall_cons in Hp as [Hx Hl].
    change (String.concat "', '" (x :: y :: l))
      with (x +:+ "', '" +:+ String.concat "', '" (y :: l)).
    rewrite !string_app_assoc, read_plain by done.
    change (read_literals (InLit (acc +:+ x))
              ("', '" +:+ String.concat "', '" (y :: l) +:+ "'"))
      with (cons (acc +:+ x) <$>
              read_literals (InLit EmptyString) (String.concat "', '" (y :: l) +:+ "'")).
    by rewrite IH.
Qed.

(** A text without per-cent sign passes the driver as it is. *)
Lemma percent_format_free s : percent_free s = true → percent_format s = Some s.
Proof.
  induction s as [|c s IH]; [done|]. cbn [percent_free percent_format].
  intros [Hc Hs]%andb_true_iff. apply negb_true_iff in Hc. by rewrite Hc, IH.
Qed.

Lemma percent_free_app s t : percent_free (s +:+ t) = percent_free s && percent_free t.
Proof.
  induction s as [|c s IH]; [done|]. rewrite string_app_cons. cbn [percent_free].
  by rewrite IH, andb_assoc.
Qed.

Lemma percent_free_quoted_join l :
  Forall (λ s, percent_free s = true) l → percent_free (quoted_join l) = true.
Proof.
  intros Hl. unfold quoted_join. cbn [percent_free]. rewrite percent_free_app.
  change (percent_free "'") with true. rewrite andb_true_r.
  change (negb (bool_decide (quote = percent))) with true. cbn [andb].
  induction Hl as [|x l Hx Hl IH]; [done|]. destruct l as [|y l].
  - exact Hx.
  - change (String.concat "', '" (x :: y :: l))
      with (x +:+ "', '" +:+ String.concat "', '" (y :: l)).
    rewrite !percent_free_app, Hx, IH. done.
Qed.

Lemma literal_text_spec s :
  literal_text s = true → plain s = true ∧ percent_free s = true.
Proof.
  induction s as [|c s IH]; [done|]. cbn [literal_text plain percent_free].
  unfold literal_char. rewrite !andb_true_iff. intros [((((_ & _) & Hq) & Hp) & _) Hs].
  destruct (IH Hs) as [-> ->]. by rewrite Hq, Hp.
Qed.

(** A list of plain texts, not empty, is read back as it was written. *)
Lemma in_literals_literal l :
  l ≠ [] → Forall (λ s, literal_text s = true) l → in_literals l = Some l.
Proof.
  intros Hne Hl. unfold in_literals.
  rewrite percent_format_free.
  - destruct l as [|x l]; [done|]. cbn [mbind option_bind]. unfold quoted_join.
    change (read_literals Start (String quote (String.concat "', '" (x :: l) +:+ "'")))
      with (read_literals (InLit EmptyString) (String.concat "', '" (x :: l) +:+ "'")).
    rewrite read_joined; [done|].
    eapply Forall_impl; [exact Hl|]. intros s Hs. by apply literal_text_spec.
  - apply percent_free_quoted_join.
    eapply Forall_impl; [exact Hl|]. intros s Hs. by apply literal_text_spec.
Qed.

Lemma eq_literal_literal s : literal_text s = true → eq_literal s = Some s.
Proof.
  intros Hs. unfold eq_literal.
  change (percent_format (quoted_join [s]) ≫= read_literals Start) with (in_literals [s]).
  rewrite in_literals_literal; [done|done|]. by repeat constructor.
Qed.

(** The empty list is written as [''] and read back as the empty
    status. *)
Lemma in_literals_nil : in_literals [] = Some [EmptyString].
Proof. reflexivity. Qed.

(** ** Forced destroy *)

Lemma filter_bool_decide {A} (P : A → Prop) `{∀ x, Decision (P x)} (l : list A) :
  List.filter (λ x, bool_decide (P x)) l = filter P l.
Proof.
  induction l as [|x l IH]; [done|]. simpl. rewrite filter_cons, IH.
  destruct (decide (P x)); [by rewrite bool_decide_true | by rewrite bool_decide_false].
Qed.

Lemma set_destroyed_unfold scan status_list named q :
  in_literals status_list = Some named →
  set_destroyed scan status_list q =
  Some (update_where (status_in named) (set_status STATUS_DESTROYED) q,
        sq_id <$> scan (select_where (status_in named) q)).
Proof.
  intros Hn. unfold set_destroyed. rewrite Hn. cbn.
  by destruct (scan (select_where (status_in named) q)).
Qed.

(** What [set_destroyed] does with the statuses the statement names. *)
Lemma set_destroyed_named scan status_list named q :
  (∀ l, scan l ≡ₚ l) →
  in_literals status_list = Some named →
  ∃ res, set_destroyed scan status_list q = Some res ∧ evicts named q res.
Proof.
  intros Hscan Hn. rewrite (set_destroyed_unfold _ _ _ _ Hn). eexists. split; [done|].
  split; cbn [fst snd].
  - apply update_destroys. intros r _. unfold status_in. apply bool_decide_eq_true.
  - rewrite Hscan. unfold select_where, status_in.
    by rewrite (filter_bool_decide (λ r, sq_status r ∈ named)).
Qed.

(** C3. For a list of statuses that is not empty and whose statuses are
    plain texts (printable, without single quote, per-cent sign or
    backslash), [set_destroyed] sets to DESTROYED exactly the rows whose
    status is in the list, leaves every other row as it was, and returns
    the keys of the rows it changed, in the order in which the store
    returns the rows. *)
Theorem set_destroyed_evicts (scan : list row → list row) (status_list : list string)
    (q : table) :
  (∀ l, scan l ≡ₚ l) →
  status_list ≠ [] →
  Forall (λ s, literal_text s = true) status_list →
  ∃ res, set_destroyed scan status_list q = Some res ∧ evicts status_list q res.
Proof.
  intros Hscan Hne Hp. apply set_destroyed_named; [done|]. by apply in_literals_literal.
Qed.

Lemma set_destroyed_evicts_witness :
  (∀ l : list row, reverse l ≡ₚ l)
  ∧ [STATUS_CLAIMED; STATUS_PROGRESS] ≠ []
  ∧ Forall (λ s, literal_text s = true) [STATUS_CLAIMED; STATUS_PROGRESS]
  ∧ ∃ res, set_destroyed reverse [STATUS_CLAIMED; STATUS_PROGRESS] claimed_once = Some res
           ∧ evicts [STATUS_CLAIMED; STATUS_PROGRESS] claimed_once res.
Proof.
  assert (∀ l : list row, reverse l ≡ₚ l) as H0 by (intros l; apply reverse_Permutation).
  assert ([STATUS_CLAIMED; STATUS_PROGRESS] ≠ []) as H1 by discriminate.
  assert (Forall (λ s, literal_text s = true) [STATUS_CLAIMED; STATUS_PROGRESS]) as H2
    by (repeat constructor).
  split; [exact H0|]. split; [exact H1|]. split; [exact H2|].
  exact (set_destroyed_evicts reverse [STATUS_CLAIMED; STATUS_PROGRESS] claimed_once
           H0 H1 H2).
Defined.

(** With the empty list the statement names the empty status, and with a
    status that contains a quote it names other statuses: a row whose
    status is not in the caller's list is set to DESTROYED and its key
    returned.  With a per-cent sign in a status the driver raises. *)
Lemma set_destroyed_misnamed :
  (∃ r q', t_rows (finished_with EmptyString) = [r]
           ∧ (sq_status r ∉ @nil string)
           ∧ set_destroyed id [] (finished_with EmptyString) = Some (q', [sq_id r])
           ∧ sq_status <$> t_rows q' = [STATUS_DESTROYED])
  ∧ (∃ r q', t_rows (finished_with "a") = [r]
             ∧ (sq_status r ∉ ["a', 'b"])
             ∧ set_destroyed id ["a', 'b"] (finished_with "a") = Some (q', [sq_id r])
             ∧ sq_status <$> t_rows q' = [STATUS_DESTROYED])
  ∧ set_destroyed id ["50%"] (finished_with "a") = None.
Proof.
  split; [|split]; [do 2 eexists..|].
  - split; [vm_compute; reflexivity|]. split; [apply not_elem_of_nil|].
    split; vm_compute; reflexivity.
  - split; [vm_compute; reflexivity|]. split.
    + intros Hin. apply list_elem_of_singleton in Hin. vm_compute in Hin. discriminate.
    + split; vm_compute; reflexivity.
  - vm_compute. reflexivity.
Qed.

(** ** Table creation *)

Lemma dict_get_set_eq k v d : dict_get k (dict_set k v d) = Some v.
Proof.
  unfold dict_get. induction d as [|[k' v'] d IH]; simpl.
  - by rewrite bool_decide_true.
  - case_bool_decide as Hk; simpl.
    + by rewrite bool_decide_true.
    + rewrite bool_decide_false by done. exact IH.
Qed.

Lemma dict_get_set_ne k k' v d : k' ≠ k → dict_get k' (dict_set k v d) = dict_get k' d.
Proof.
  intros Hne. unfold dict_get. induction d as [|[k0 v0] d IH]; simpl.
  - by rewrite bool_decide_false.
  - case_bool_decide as Hk; simpl.
    + subst k0. by rewrite !bool_decide_false by done.
    + destruct (bool_decide (k0 = k')); [done | exact IH].
Qed.

(** Two given names differ. *)
Ltac names_ne := let H := fresh in intros H; vm_compute in H; discriminate H.

Lemma dict_set_same k v d : dict_get k d = Some v → dict_set k v d = d.
Proof.
  unfold dict_get. induction d as [|[k' v'] d IH]; [done|].
  cbn [List.find dict_set fst]. destruct (bool_decide (k' = k)) eqn:Hk.
  - apply bool_decide_eq_true in Hk as ->. cbn. by intros [= ->].
  - intros H. by rewrite IH.
Qed.

Lemma dict_set_keys k v d :
  (dict_set k v d).*1 = if bool_decide (k ∈ d.*1) then d.*1 else d.*1 ++ [k].
Proof.
  induction d as [|[k' v'] d IH]; [done|]. cbn [dict_set].
  destruct (decide (k' = k)) as [->|Hk].
  - rewrite (bool_decide_true (k = k)) by done. rewrite !fmap_cons. cbn [fst].
    by rewrite bool_decide_true by apply list_elem_of_here.
  - rewrite (bool_decide_false (k' = k)) by done. rewrite !fmap_cons, IH. cbn [fst].
    destruct (decide (k ∈ d.*1)) as [Hin|Hin].
    + rewrite (bool_decide_true (k ∈ d.*1)) by done.
      by rewrite bool_decide_true by (by apply list_elem_of_further).
    + rewrite (bool_decide_false (k ∈ d.*1)) by done.
      rewrite bool_decide_false; [done|].
      rewrite elem_of_cons. intros [->|?]; done.
Qed.

Lemma dict_set_NoDup k v d : NoDup d.*1 → NoDup (dict_set k v d).*1.
Proof.
  intros Hn. rewrite dict_set_keys. case_bool_decide as Hin; [done|].
  apply NoDup_app. split; [done|]. split; [|apply NoDup_singleton].
  intros x Hx ->%list_elem_of_singleton. done.
Qed.

Lemma declare_get_other k kvs d :
  k ∉ kvs.*1 →
  dict_get k (foldl (λ d kv, dict_set kv.1 kv.2 d) d kvs) = dict_get k d.
Proof.
  revert d. induction kvs as [|[k0 v0] kvs IH]; intros d; [done|].
  rewrite fmap_cons, not_elem_of_cons. cbn [foldl fst snd]. intros [Hk Hn].
  rewrite IH by done. by apply dict_get_set_ne.
Qed.

Lemma declare_get k v kvs d :
  NoDup kvs.*1 → (k, v) ∈ kvs →
  dict_get k (foldl (λ d kv, dict_set kv.1 kv.2 d) d kvs) = Some v.
Proof.
  revert d. induction kvs as [|[k0 v0] kvs IH]; intros d; [by intros _ ?%elem_of_nil|].
  rewrite fmap_cons, NoDup_cons. cbn [foldl fst snd].
  intros [Hk Hn] [[= -> ->]|Hin]%elem_of_cons.
  - rewrite declare_get_other by done. apply dict_get_set_eq.
  - by apply IH.
Qed.

Lemma declare_same kvs d :
  (∀ k v, (k, v) ∈ kvs → dict_get k d = Some v) →
  foldl (λ d kv, dict_set kv.1 kv.2 d) d kvs = d.
Proof.
  induction kvs as [|[k0 v0] kvs IH]; [done|]. intros H. cbn [foldl fst snd].
  rewrite dict_set_same by (apply H, list_elem_of_here).
  apply IH. intros k v Hin. by apply H, list_elem_of_further.
Qed.

Lemma declare_NoDup kvs d :
  NoDup d.*1 → NoDup (foldl (λ d kv, dict_set kv.1 kv.2 d) d kvs).*1.
Proof.
  revert d. induction kvs as [|[k0 v0] kvs IH]; intros d Hn; [done|].
  cbn [foldl]. by apply IH, dict_set_NoDup.
Qed.

Lemma filter_ext_in {A} (P Q : A → Prop) `{∀ x, Decision (P x)} `{∀ x, Decision (Q x)}
    (l : list A) :
  (∀ x, x ∈ l → (P x ↔ Q x)) → filter P l = filter Q l.
Proof.
  induction l as [|x l IH]; [done|]. intros Hext. rewrite !filter_cons.
  rewrite IH by (intros; by apply Hext, list_elem_of_further).
  pose proof (Hext x (list_elem_of_here _ _)).
  destruct (decide (P x)), (decide (Q x)); tauto || done.
Qed.

Lemma declare_keys kvs d :
  NoDup kvs.*1 →
  (foldl (λ d kv, dict_set kv.1 kv.2 d) d kvs).*1
  = d.*1 ++ filter (λ k, k ∉ d.*1) kvs.*1.
Proof.
  revert d. induction kvs as [|[k0 v0] kvs IH]; intros d.
  - intros _. by rewrite app_nil_r.
  - rewrite fmap_cons, NoDup_cons. cbn [foldl fst snd]. intros [Hk Hn].
    rewrite IH, dict_set_keys by done. rewrite filter_cons.
    destruct (decide (k0 ∈ d.*1)) as [Hin|Hin].
    + rewrite bool_decide_true by done. by rewrite decide_False by (by intros ?).
    + rewrite bool_decide_false by done. rewrite decide_True by done.
      rewrite <- app_assoc. cbn [app]. do 2 f_equal.
      apply filter_ext_in. intros k Hkin. rewrite not_elem_of_app, list_elem_of_singleton.
      split; [tauto|]. intros Hd. split; [done|]. by intros ->.
Qed.

(** C6. [create_table] checks no name and raises no error of its own for
    a payload column named like a meta column: for the Postgres type such
    a column keeps its place and takes the queue's type in the place of
    the caller's, and the call ends as the store takes the statement; the
    only error the function itself raises is the [TypeError] for another
    connection type. *)
Theorem create_table_creates (execute_sql : string → bool) (squeue_name : string)
    (column_descriptions : list (string * string)) (sql_type : string) :
  creates execute_sql squeue_name column_descriptions sql_type.
Proof.
  unfold creates, SQLQueue.create_table.
  destruct (decide (sql_type = POSTGRES)) as [->|Hne].
  - assert (NoDup declared_columns.*1) as Hdecl
      by (apply (bool_decide_unpack _); vm_compute; exact I).
    destruct (create_table squeue_name column_descriptions POSTGRES)
      as [msg|[described sql]] eqn:E.
    { unfold create_table in E. by rewrite bool_decide_true in E. }
    exists described, sql. split; [done|].
    unfold create_table in E. rewrite bool_decide_true in E by done. cbv zeta in E.
    injection E as Hd Hs.
    change (foldl (λ d kv, dict_set kv.1 kv.2 d) column_descriptions declared_columns
            = described) in Hd.
    rewrite <- Hd. split; [by rewrite <- Hs|]. split; [by apply declare_keys|]. split.
    + intros k v Hkv. by apply declare_get.
    + intros k Hk. by apply declare_get_other.
  - unfold create_table. by rewrite bool_decide_false.
Qed.

(** A payload column named [sq_status]: no error is raised, and the
    caller's [text] is replaced by the queue's [varchar(20)]. *)
Lemma create_table_reserved_name :
  create_table "jobs" [("sq_status", "text"); ("job", "int")] POSTGRES
  = inr ([("sq_status", "varchar(20)"); ("job", "int"); ("sq_priority", "int");
          ("sq_put_time", "timestamp default now()"); ("sq_claim_time", "timestamp");
          ("sq_get_time", "timestamp"); ("sq_finish_time", "timestamp");
          ("sq_put_hostname", "text"); ("sq_get_hostname", "text");
          ("sq_id", "serial primary key")],
         "create table if not exists jobs (sq_status varchar(20), job int, sq_priority int, sq_put_time timestamp default now(), sq_claim_time timestamp, sq_get_time timestamp, sq_finish_time timestamp, sq_put_hostname text, sq_get_hostname text, sq_id serial primary key)").
Proof. vm_compute. reflexivity. Qed.

(** ** Stamps *)

Lemma find_row_Some i q r : find_row i q = Some r → r ∈ t_rows q ∧ sq_id r = i.
Proof.
  unfold find_row. intros H.
  assert (r ∈ select_where (id_is i) q) as Hr.
  { destruct (select_where (id_is i) q); simplify_eq/=. left. }
  apply elem_of_select_where in Hr as [Hr Hi]. split; [done|].
  by apply Z.eqb_eq.
Qed.











(** The scenario of the specification: with one row IN_PROGRESS, one
    CLAIMED and one AVAILABLE, a forced destroy of CLAIMED and IN_PROGRESS
    changes the first two, leaves the third, and returns the keys of the
    first two. *)
Example set_destroyed_leaves_available :
  let q := default backlog_5_9_1
             (run [OpClaim "w1" 200 None; OpClaim "w2" 201 None; OpGet "w1" 202 2]
                  backlog_5_9_1) in
  sq_status <$> t_rows q = [STATUS_CLAIMED; STATUS_PROGRESS; STATUS_AVAILABLE]
  ∧ ∃ q', set_destroyed id [STATUS_CLAIMED; STATUS_PROGRESS] q = Some (q', [1; 2])
          ∧ sq_status <$> t_rows q' = [STATUS_DESTROYED; STATUS_DESTROYED; STATUS_AVAILABLE]
          ∧ t_rows q' !! 2%nat = t_rows q !! 2%nat.
Proof.
  split; [vm_compute; reflexivity|]. eexists. repeat split; vm_compute; reflexivity.
Qed.

(** * Further properties of the queue *)

(** ** Counting and claiming *)





(** With [job = 'zzz' OR job = 'b'] the count includes the CLAIMED row
    [b], and a claim does not bring it down. *)
Example available_count_or_condition :
  available_count (Some zzz_or_b) backlog_claimed_b = 1
  ∧ available_count (Some zzz_or_b)
      (claim "w1" 200 (Some zzz_or_b) backlog_claimed_b).1 = 1.
Proof. split; vm_compute; reflexivity. Qed.



(** ** What the operations keep *)









(** ** Fetching and finishing by key *)

Lemma update_where_none w f q :
  (∀ r, r ∈ t_rows q → w r = false) → update_where w f q = q.
Proof.
  destruct q as [cols l s]. unfold update_where. cbn [t_rows t_columns t_seq].
  intros H. f_equal. induction l as [|x l IH]; [done|].
  rewrite fmap_cons, (H x) by apply list_elem_of_here.
  f_equal. apply IH. intros r Hr. apply H. by apply list_elem_of_further.
Qed.

Lemma update_absent_key i f q : i ∉ ids q → update_where (id_is i) f q = q.
Proof.
  intros Hi. apply update_where_none. intros r Hr. unfold id_is.
  apply Z.eqb_neq. intros <-. apply Hi, list_elem_of_fmap. eauto.
Qed.

Lemma finish_storable now i s q :
  storable s → finish now i s q = Some (update_where (id_is i) (set_finished now s) q).
Proof.
  intros [Hl Hlen]. unfold finish. rewrite eq_literal_literal by done. cbn.
  by rewrite decide_True.
Qed.

(** A key that no row has: [get] returns an empty frame and leaves the
    table as it is; [finish], given a status that is a plain text of at
    most twenty characters, returns and leaves the table as it is. *)
Theorem absent_key_untouched (host : string) (now row_id : Z) (finish_status : string)
    (q : table) :
  row_id ∉ ids q → storable finish_status →
  get host now row_id q = (q, [])
  ∧ finish now row_id finish_status q = Some q.
Proof.
  intros Hi Hs. split.
  - unfold get. rewrite update_absent_key by done. by rewrite select_key_absent.
  - rewrite finish_storable by done. by rewrite update_absent_key.
Qed.

Lemma absent_key_untouched_witness :
  (7 ∉ ids backlog_5_9_1)
  ∧ storable STATUS_COMPLETED
  ∧ get "worker" 200 7 backlog_5_9_1 = (backlog_5_9_1, [])
  ∧ finish 200 7 STATUS_COMPLETED backlog_5_9_1 = Some backlog_5_9_1.
Proof.
  assert (7 ∉ ids backlog_5_9_1) as H.
  { apply (bool_decide_unpack _). vm_compute. exact I. }
  assert (storable STATUS_COMPLETED) as Hs by (split; [reflexivity | vm_compute; lia]).
  split; [exact H|]. split; [exact Hs|].
  exact (absent_key_untouched "worker" 200 7 STATUS_COMPLETED backlog_5_9_1 H Hs).
Defined.

(** [get] checks neither the status of the row nor who claimed it: for
    the key of any row, whatever its state, it sets that row IN_PROGRESS
    with the caller's get stamps, leaves every other row as it was, and
    returns the one row as it now stands. *)
Theorem get_ignores_status (host : string) (now : Z) (q : table) (r : row) :
  primary_key q → r ∈ t_rows q →
  get host now (sq_id r) q =
  (mkTable (t_columns q)
     ((λ x, if decide (x = r) then set_got now host r else x) <$> t_rows q)
     (t_seq q),
   [set_got now host r]).
Proof.
  intros Hpk Hr. unfold get.
  rewrite select_update_key by done. rewrite select_key by done.
  by rewrite update_key.
Qed.

Lemma get_ignores_status_witness :
  primary_key finished_once
  ∧ ∃ r, r ∈ t_rows finished_once
         ∧ sq_status r = STATUS_COMPLETED
         ∧ get "other" 500 (sq_id r) finished_once =
           (mkTable (t_columns finished_once)
              ((λ x, if decide (x = r) then set_got 500 "other" r else x)
                 <$> t_rows finished_once)
              (t_seq finished_once),
            [set_got 500 "other" r]).
Proof.
  assert (primary_key finished_once) as H.
  { unfold primary_key. apply (bool_decide_unpack _). vm_compute. exact I. }
  split; [exact H|].
  assert (∃ r, t_rows finished_once = [r] ∧ sq_status r = STATUS_COMPLETED)
    as (r & Hr & Hs).
  { eexists. split; vm_compute; reflexivity. }
  assert (r ∈ t_rows finished_once) as Hin by (rewrite Hr; apply list_elem_of_here).
  exists r. split; [exact Hin|]. split; [exact Hs|].
  exact (get_ignores_status "other" 500 finished_once r H Hin).
Defined.

(** [finish] checks the status it is given against no list of statuses,
    and it does not look at the state of the row: any plain text of at
    most twenty characters (printable, without single quote, per-cent
    sign or backslash) is stored as the status of the row with the key,
    together with the finish stamp, and [get_status] then returns that
    text; the rows under other keys are as they were. *)
Theorem finish_stores_any_status (now : Z) (finish_status : string) (q : table) (r : row) :
  storable finish_status → primary_key q → r ∈ t_rows q →
  ∃ q', finish now (sq_id r) finish_status q = Some q'
        ∧ find_row (sq_id r) q' = Some (set_finished now finish_status r)
        ∧ get_status (sq_id r) q' = finish_status
        ∧ ∀ i, i ≠ sq_id r → find_row i q' = find_row i q.
Proof.
  intros Hp Hpk Hr. rewrite finish_storable by done.
  eexists. split; [done|]. split; [|split].
  - unfold find_row. rewrite select_update_key by done. by rewrite select_key.
  - unfold get_status. rewrite select_update_key by done. by rewrite select_key.
  - intros i Hi. rewrite find_row_update by done.
    destruct (find_row i q) as [x|] eqn:E; [|done]. cbn.
    apply find_row_Some in E as [_ Hx]. unfold id_is.
    destruct (sq_id x =? sq_id r) eqn:E'; [|done].
    apply Z.eqb_eq in E'. congruence.
Qed.

Lemma finish_stores_any_status_witness :
  storable "GIVEN_UP"
  ∧ primary_key fetched_once
  ∧ ∃ r, r ∈ t_rows fetched_once
         ∧ ∃ q', finish 400 (sq_id r) "GIVEN_UP" fetched_once = Some q'
                 ∧ find_row (sq_id r) q' = Some (set_finished 400 "GIVEN_UP" r)
                 ∧ get_status (sq_id r) q' = "GIVEN_UP"
                 ∧ ∀ i, i ≠ sq_id r → find_row i q' = find_row i fetched_once.
Proof.
  assert (storable "GIVEN_UP") as Hp by (split; [reflexivity | vm_compute; lia]).
  assert (primary_key fetched_once) as H.
  { unfold primary_key. apply (bool_decide_unpack _). vm_compute. exact I. }
  split; [exact Hp|]. split; [exact H|].
  assert (∃ r, t_rows fetched_once = [r]) as (r & Hr).
  { eexists. vm_compute. reflexivity. }
  assert (r ∈ t_rows fetched_once) as Hin by (rewrite Hr; apply list_elem_of_here).
  exists r. split; [exact Hin|].
  exact (finish_stores_any_status 400 "GIVEN_UP" fetched_once r Hp H Hin).
Defined.

(** Other texts: with a per-cent sign the driver raises, a doubled
    per-cent sign is stored as one, and a status of twenty-one characters
    is refused by the column. *)
Example finish_other_texts :
  finish 400 1 "50%" fetched_once = None
  ∧ get_status 1 <$> finish 400 1 "a%%b" fetched_once = Some "a%b"
  ∧ finish 400 1 "ABCDEFGHIJKLMNOPQRSTU" fetched_once = None.
Proof. repeat split; vm_compute; reflexivity. Qed.

(** ** Scanning twice *)

Lemma timed_out_destroyed now a b r :
  timed_out now a b (set_status STATUS_DESTROYED r) = false.
Proof.
  unfold timed_out, status_is. cbn [sq_status set_status].
  rewrite !bool_decide_eq_false_2 by names_ne. done.
Qed.

Lemma rescan_unreclaimed now ip cl q (w' : row → bool) x :
  (∀ r, w' (set_status STATUS_DESTROYED r) = false) →
  x ∈ select_where w' (cleanup_long_running_rows now ip cl q).1 →
  x ∈ t_rows q ∧ (x ∉ (cleanup_long_running_rows now ip cl q).2).
Proof.
  intros Hw'. unfold cleanup_long_running_rows.
  set (w := timed_out now (format_f ip) (format_f cl)).
  destruct (select_where w q) as [|y l] eqn:E; cbn [fst snd].
  - rewrite elem_of_select_where. intros [Hx _]. split; [done | apply not_elem_of_nil].
  - rewrite elem_of_select_where. unfold update_where. cbn [t_rows].
    intros [Hx Hwx]. apply list_elem_of_fmap in Hx as (r & -> & Hr).
    unfold id_in in *. destruct (bool_decide _) eqn:Eb.
    + by rewrite Hw' in Hwx.
    + split; [done|]. intros Hin. apply bool_decide_eq_false in Eb. apply Eb.
      apply elem_of_remove_dups, list_elem_of_fmap. eauto.
Qed.

(** A row is reclaimed at most once.  A second scan with the same clock
    and time-outs finds nothing and leaves the table as the first left
    it; and whatever its clock and time-outs, a later scan returns only
    rows of the table that the first scan did not return. *)
Theorem cleanup_reclaims_once (now : Z) (t_ip t_cl : Q) (q : table) :
  let first := cleanup_long_running_rows now t_ip t_cl q in
  cleanup_long_running_rows now t_ip t_cl first.1 = (first.1, [])
  ∧ ∀ now' t_ip' t_cl',
      Forall (λ r, r ∈ t_rows q ∧ r ∉ first.2)
             (cleanup_long_running_rows now' t_ip' t_cl' first.1).2.
Proof.
  intros first.
  assert (∀ now' t_ip' t_cl',
            (cleanup_long_running_rows now' t_ip' t_cl' first.1).2
            = select_where (timed_out now' (format_f t_ip') (format_f t_cl')) first.1)
    as Hsnd.
  { intros. unfold cleanup_long_running_rows. by destruct (select_where _ first.1). }
  split.
  - unfold cleanup_long_running_rows at 1.
    destruct (select_where _ first.1) as [|x l] eqn:E; [done|]. exfalso.
    assert (x ∈ select_where (timed_out now (format_f t_ip) (format_f t_cl)) first.1)
      as Hx by (rewrite E; apply list_elem_of_here).
    pose proof Hx as [_ Hw]%elem_of_select_where.
    apply rescan_unreclaimed in Hx as [Hq Hn]; [|intros; apply timed_out_destroyed].
    apply Hn. unfold cleanup_long_running_rows.
    assert (x ∈ select_where (timed_out now (format_f t_ip) (format_f t_cl)) q) as Hsel
      by (by apply elem_of_select_where).
    by destruct (select_where _ q).
  - intros now' t_ip' t_cl'. rewrite Hsnd. apply Forall_forall. intros r Hr.
    apply rescan_unreclaimed in Hr; [done|]. intros; apply timed_out_destroyed.
Qed.

(** ** Destroying twice *)

Lemma status_in_destroyed named r :
  status_in named (set_status STATUS_DESTROYED r) = bool_decide (STATUS_DESTROYED ∈ named).
Proof. done. Qed.

Lemma destroy_destroyed named q :
  update_where (status_in named) (set_status STATUS_DESTROYED)
    (update_where (status_in named) (set_status STATUS_DESTROYED) q)
  = update_where (status_in named) (set_status STATUS_DESTROYED) q.
Proof.
  unfold update_where. cbn [t_rows t_columns t_seq]. f_equal.
  rewrite <- list_fmap_compose. apply list_fmap_ext. intros _ r _. unfold compose.
  destruct (status_in named r) eqn:E.
  - rewrite status_in_destroyed. by destruct (bool_decide _).
  - by rewrite E.
Qed.

Lemma select_destroyed named q :
  sq_id <$> select_where (status_in named)
              (update_where (status_in named) (set_status STATUS_DESTROYED) q)
  = if bool_decide (STATUS_DESTROYED ∈ named)
    then sq_id <$> select_where (status_in named) q else [].
Proof.
  unfold select_where, update_where. cbn [t_rows].
  induction (t_rows q) as [|x l IH].
  - by destruct (bool_decide _).
  - rewrite fmap_cons. cbn [List.filter].
    destruct (status_in named x) eqn:E.
    + rewrite status_in_destroyed.
      destruct (bool_decide (STATUS_DESTROYED ∈ named)) eqn:Ed.
      * by rewrite !fmap_cons, IH.
      * exact IH.
    + by rewrite E, IH.
Qed.

(** Forced destroy a second time, with the same list (not empty, of
    plain texts): the table stays as the first call left it; the call
    returns the keys the first call returned, in some order, when the
    list names DESTROYED itself, and no key otherwise. *)
Theorem set_destroyed_again (scan scan' : list row → list row)
    (status_list : list string) (q : table) :
  (∀ l, scan l ≡ₚ l) → (∀ l, scan' l ≡ₚ l) →
  status_list ≠ [] →
  Forall (λ s, literal_text s = true) status_list →
  ∃ q' destroyed destroyed',
    set_destroyed scan status_list q = Some (q', destroyed)
    ∧ set_destroyed scan' status_list q' = Some (q', destroyed')
    ∧ (if bool_decide (STATUS_DESTROYED ∈ status_list)
       then destroyed' ≡ₚ destroyed else destroyed' = []).
Proof.
  intros Hscan Hscan' Hne Hp. pose proof (in_literals_literal _ Hne Hp) as Hn.
  do 3 eexists. split; [by apply set_destroyed_unfold|].
  rewrite (set_destroyed_unfold _ _ _ _ Hn), destroy_destroyed. split; [done|].
  pose proof (select_destroyed status_list q) as Hsel.
  destruct (bool_decide (STATUS_DESTROYED ∈ status_list)).
  - by rewrite Hscan', Hsel, Hscan.
  - apply Permutation_nil_r. by rewrite Hscan', Hsel.
Qed.

Lemma set_destroyed_again_witness :
  (∀ l : list row, reverse l ≡ₚ l)
  ∧ (∀ l : list row, id l ≡ₚ l)
  ∧ [STATUS_CLAIMED; STATUS_DESTROYED] ≠ []
  ∧ Forall (λ s, literal_text s = true) [STATUS_CLAIMED; STATUS_DESTROYED]
  ∧ ∃ q' destroyed destroyed',
      set_destroyed reverse [STATUS_CLAIMED; STATUS_DESTROYED] claimed_once
      = Some (q', destroyed)
      ∧ set_destroyed id [STATUS_CLAIMED; STATUS_DESTROYED] q' = Some (q', destroyed')
      ∧ (if bool_decide (STATUS_DESTROYED ∈ [STATUS_CLAIMED; STATUS_DESTROYED])
         then destroyed' ≡ₚ destroyed else destroyed' = []).
Proof.
  assert (∀ l : list row, reverse l ≡ₚ l) as H0 by (intros l; apply reverse_Permutation).
  assert (∀ l : list row, id l ≡ₚ l) as H0' by (intros l; reflexivity).
  assert ([STATUS_CLAIMED; STATUS_DESTROYED] ≠ []) as H1 by discriminate.
  assert (Forall (λ s, literal_text s = true) [STATUS_CLAIMED; STATUS_DESTROYED]) as H2
    by (repeat constructor).
  split; [exact H0|]. split; [exact H0'|]. split; [exact H1|]. split; [exact H2|].
  exact (set_destroyed_again reverse id [STATUS_CLAIMED; STATUS_DESTROYED] claimed_once
           H0 H0' H1 H2).
Defined.

(** ** First in, first out *)

Lemma insert_records_keys now df_columns recs q q' :
  SQ_ID ∉ df_columns →
  insert_records now df_columns recs q = Some q' →
  ∃ new, t_rows q' = t_rows q ++ new
         ∧ sq_id <$> new = seqZ (t_seq q) (Z.of_nat (length recs))
         ∧ Forall2 (λ rec r,
              given df_columns rec SQ_STATUS = Some (CStr (sq_status r))
              ∧ as_int (given df_columns rec SQ_PRIORITY) = Some (sq_priority r))
             recs new.
Proof.
  intros Hid. revert q. induction recs as [|rec recs IH]; intros q H; simpl in H.
  - simplify_eq. exists []. by rewrite app_nil_r.
  - destruct (insert_record now df_columns rec q) as [q1|] eqn:E1; [|done].
    simpl in H. apply IH in H as (new & Hrows & Hkeys & Hall).
    apply insert_record_Some in E1 as (r & Hr & _ & _ & Hkey & Hst & Hpr & _).
    unfold given in Hkey. rewrite bool_decide_false in Hkey by done.
    destruct Hkey as [Hk Hs].
    exists (r :: new). split; [|split].
    + by rewrite Hrows, Hr, <- app_assoc.
    + rewrite fmap_cons, Hkeys, Hk, Hs. cbn [length].
      rewrite (seqZ_cons (t_seq q)) by lia. do 2 f_equal; lia.
    + by constructor.
Qed.

Lemma put_default_rows host now df priority_included priority q q' :
  SQ_ID ∉ columns df →
  priority_included = false ∨ SQ_PRIORITY ∉ columns df →
  put host now df priority_included priority q = Some q' →
  ∃ new, t_rows q' = t_rows q ++ new
         ∧ sq_id <$> new = seqZ (t_seq q) (Z.of_nat (length (records df)))
         ∧ Forall (λ r, sq_status r = STATUS_AVAILABLE
                        ∧ sq_priority r
                          = Some (Z.max MIN_PRIORITY (Z.min MAX_PRIORITY priority))) new.
Proof.
  intros Hid Hpi. rewrite put_unfold. cbv zeta. unfold append_to_table.
  replace (priority_included && bool_decide (SQ_PRIORITY ∈ columns df)) with false.
  2:{ destruct Hpi as [->|Hn]; [done|].
      rewrite (bool_decide_false _ Hn). by rewrite andb_false_r. }
  set (p := Z.max MIN_PRIORITY (Z.min MAX_PRIORITY priority)).
  set (sql := meta_columns ++ t_columns q).
  intros H. apply insert_records_keys in H as (new & Hrows & Hkeys & Hall).
  - exists new. split; [done|]. split.
    + rewrite Hkeys. cbn [get_df_interesection records df_set].
      by rewrite !length_fmap.
    + assert (∀ c, c ∈ meta_columns → c ∈ sql) as Hmeta
        by (intros; by apply meta_in_sql_columns).
      cbn [get_df_interesection records df_set] in Hall.
      rewrite !Forall2_fmap_l in Hall.
      eapply Forall2_Forall_r; [exact Hall|].
      apply Forall_forall. intros rec _ r. cbv beta. intros (Hst & Hpr).
      rewrite given_intersection in Hst by (apply Hmeta; listed).
      rewrite given_intersection in Hpr by (apply Hmeta; listed).
      rewrite !given_df_set in Hst. rewrite !given_df_set in Hpr.
      decide_names Hst. decide_names Hpr.
      injection Hst as Hst. unfold p in Hpr. rewrite as_int_clamped in Hpr.
      injection Hpr as Hpr. done.
  - unfold get_df_interesection. cbn [columns].
    rewrite list_elem_of_filter. intros [_ Hin].
    rewrite !elem_of_columns_df_set in Hin.
    destruct Hin as [Hin|[Hin|[Hin|Hin]]]; try (by vm_compute in Hin); done.
Qed.

Lemma order_by_ordered_id l : ordered l → order_by l = l.
Proof.
  induction 1 as [|x l _ IH Hx]; [done|].
  cbn [order_by foldr]. fold (order_by l). rewrite IH.
  destruct l as [|y l']; [done|]. cbn [insert_sorted].
  apply Forall_cons in Hx as [Hy _]. by rewrite Hy.
Qed.

Lemma ordered_by_key p l :
  Forall (λ r, sq_priority r = Some p) l →
  StronglySorted Z.lt (sq_id <$> l) →
  ordered l.
Proof.
  unfold ordered. induction l as [|x l IH]; [constructor|].
  rewrite fmap_cons. intros [Hx Hl]%Forall_cons Hs.
  apply StronglySorted_inv in Hs as [Hs Hlt].
  constructor; [by apply IH|].
  apply Forall_forall. intros y Hy.
  rewrite Forall_forall in Hl. specialize (Hl y Hy).
  rewrite Forall_forall in Hlt.
  assert (sq_id x < sq_id y) as Hxy by (apply Hlt, list_elem_of_fmap; eauto).
  unfold sorts_before. rewrite Hx, Hl. cbn [priority_above].
  rewrite Z.ltb_irrefl. cbn [orb]. apply andb_false_iff. right. apply Z.ltb_ge. lia.
Qed.

Lemma seqZ_sorted m n : StronglySorted Z.lt (seqZ m (Z.of_nat n)).
Proof.
  revert m. induction n as [|n IH]; intros m; [constructor|].
  rewrite seqZ_cons by lia.
  replace (Z.pred (Z.of_nat (S n))) with (Z.of_nat n) by lia.
  constructor; [apply IH|].
  apply Forall_forall. intros i Hi. apply elem_of_seqZ in Hi. lia.
Qed.

Lemma filter_all (P : row → bool) l :
  Forall (λ x, P x = false) l → List.filter P l = [].
Proof. induction 1 as [|x l Hx _ IH]; simpl; [done | by rewrite Hx]. Qed.

(** First in, first out.  When no row of the queue is AVAILABLE and a
    batch is enqueued with the default priority and without keys of its
    own, successive claims hand the batch out in the order of its records:
    the keys are the next values of the sequence, one after the other,
    then [-1]. *)
Theorem put_fifo (host : string) (now : Z) (df : DataFrame) (priority_included : bool)
    (priority : Z) (q q' : table) (callers : list (string * Z)) :
  SQ_ID ∉ columns df →
  priority_included = false ∨ SQ_PRIORITY ∉ columns df →
  Forall (λ r, sq_status r ≠ STATUS_AVAILABLE) (t_rows q) →
  put host now df priority_included priority q = Some q' →
  claims callers None q' =
  take (length callers) (seqZ (t_seq q) (Z.of_nat (length (records df))))
  ++ replicate (length callers - length (records df)) (-1).
Proof.
  intros Hid Hpi Hq H.
  apply put_default_rows in H as (new & Hrows & Hkeys & Hall); [|done|done].
  assert (select_where (claimable None) q' = new) as Hsel.
  { unfold select_where. rewrite Hrows, List.filter_app.
    rewrite filter_all, filter_none; [done| |].
    - eapply Forall_impl; [exact Hall|]. cbv beta. intros r [Hs _].
      unfold claimable, status_is. by rewrite bool_decide_true.
    - eapply Forall_impl; [exact Hq|]. cbv beta. intros r Hs.
      unfold claimable, status_is. by rewrite bool_decide_false. }
  rewrite (claims_served callers None q' I); rewrite Hsel.
  - rewrite order_by_ordered_id.
    + rewrite Hkeys. do 3 f_equal.
      rewrite <- (length_fmap sq_id new), Hkeys, length_seqZ. lia.
    + eapply ordered_by_key.
      * eapply Forall_impl; [exact Hall|]. cbv beta. intros r [_ Hp]. exact Hp.
      * rewrite Hkeys. apply seqZ_sorted.
  - rewrite Hkeys. apply NoDup_seqZ.
Qed.

Lemma put_fifo_witness :
  (SQ_ID ∉ columns two_jobs)
  ∧ (false = false ∨ SQ_PRIORITY ∉ columns two_jobs)
  ∧ Forall (λ r, sq_status r ≠ STATUS_AVAILABLE) (t_rows claimed_once)
  ∧ ∃ q', put "producer" 100 two_jobs false 20 claimed_once = Some q'
          ∧ claims [("w1", 200); ("w2", 201); ("w3", 202)] None q' =
            take (length [("w1", 200); ("w2", 201); ("w3", 202)])
                 (seqZ (t_seq claimed_once) (Z.of_nat (length (records two_jobs))))
            ++ replicate (length [("w1", 200); ("w2", 201); ("w3", 202)]
                          - length (records two_jobs)) (-1).
Proof.
  assert (SQ_ID ∉ columns two_jobs) as H1
    by (apply (bool_decide_unpack _); vm_compute; exact I).
  assert (false = false ∨ SQ_PRIORITY ∉ columns two_jobs) as H2 by (left; reflexivity).
  assert (Forall (λ r, sq_status r ≠ STATUS_AVAILABLE) (t_rows claimed_once)) as H3
    by (apply (bool_decide_unpack _); vm_compute; exact I).
  assert (∃ q', put "producer" 100 two_jobs false 20 claimed_once = Some q') as [q' H4]
    by (eexists; vm_compute; reflexivity).
  split; [exact H1|]. split; [exact H2|]. split; [exact H3|].
  exists q'. split; [exact H4|].
  exact (put_fifo "producer" 100 two_jobs false 20 claimed_once q'
           [("w1", 200); ("w2", 201); ("w3", 202)] H1 H2 H3 H4).
Defined.

(** Every record of an accepted batch becomes claimable: [put] raises
    [available_count] (taken without a condition) by the number of
    records in the frame, whatever status the frame itself carries. *)
Theorem put_adds_available (host : string) (now : Z) (df : DataFrame)
    (priority_included : bool) (priority : Z) (q q' : table) :
  put host now df priority_included priority q = Some q' →
  available_count None q' = available_count None q + Z.of_nat (length (records df)).
Proof.
  intros H. apply put_Some in H as (new & Hrows & _ & _ & Hall).
  unfold available_count, select_where. rewrite Hrows, List.filter_app, length_app.
  rewrite (filter_none _ new).
  - rewrite (Forall2_length _ _ _ Hall). lia.
  - eapply Forall2_Forall_r; [exact Hall|].
    apply Forall_forall. intros rec _ r (Hs & _).
    unfold claimable, status_is. by rewrite bool_decide_true.
Qed.

Lemma put_adds_available_witness :
  put "producer" 100 forged_frame false 3 backlog_5_9_1
  = Some (default backlog_5_9_1 (put "producer" 100 forged_frame false 3 backlog_5_9_1))
  ∧ available_count None
      (default backlog_5_9_1 (put "producer" 100 forged_frame false 3 backlog_5_9_1))
    = available_count None backlog_5_9_1 + Z.of_nat (length (records forged_frame)).
Proof.
  assert (put "producer" 100 forged_frame false 3 backlog_5_9_1
          = Some (default backlog_5_9_1
                    (put "producer" 100 forged_frame false 3 backlog_5_9_1))) as H
    by (vm_compute; reflexivity).
  split; [exact H|].
  exact (put_adds_available "producer" 100 forged_frame false 3 backlog_5_9_1 _ H).
Defined.

(** ** Table and schema names *)

Lemma str_split_nonempty sep s : str_split sep s ≠ [].
Proof.
  destruct s as [|c s]; [done|]. cbn [str_split].
  destruct (bool_decide (c = sep)); [done|]. by destruct (str_split sep s).
Qed.

Lemma str_split_free sep s : free_of sep s = true → str_split sep s = [s].
Proof.
  induction s as [|c s IH]; [done|]. cbn [free_of str_split].
  intros [Hc Hs]%andb_true_iff. apply negb_true_iff in Hc. rewrite Hc.
  by rewrite IH.
Qed.

Lemma str_split_app sep s rest :
  free_of sep s = true →
  str_split sep (s +:+ String sep rest) = s :: str_split sep rest.
Proof.
  induction s as [|c s IH]; intros Hs.
  - change (EmptyString +:+ String sep rest) with (String sep rest).
    cbn [str_split]. by rewrite bool_decide_true.
  - cbn [free_of] in Hs. apply andb_true_iff in Hs as [Hc Hs].
    apply negb_true_iff in Hc. rewrite string_app_cons. cbn [str_split].
    by rewrite Hc, IH.
Qed.

(** Joining with the separator and splitting again gives the pieces
    back. *)
Lemma str_split_concat sep parts :
  parts ≠ [] → Forall (λ s, free_of sep s = true) parts →
  str_split sep (String.concat (String sep EmptyString) parts) = parts.
Proof.
  induction parts as [|x parts IH]; [done|]. intros _ [Hx Hp]%Forall_cons.
  destruct parts as [|y parts].
  - cbn [String.concat]. by apply str_split_free.
  - change (String.concat (String sep EmptyString) (x :: y :: parts))
      with (x +:+ String sep EmptyString
              +:+ String.concat (String sep EmptyString) (y :: parts)).
    change (String sep EmptyString +:+ ?t) with (String sep t).
    rewrite str_split_app by done. by rewrite IH.
Qed.

(** [get_names] never raises, and the table name it returns contains no
    dot.  A name without a dot is the table name, and the schema is the
    one given or, without one, the default schema of the bridge.  A
    dotted name [... . s . t] gives the table [t] and the schema [s]:
    whatever stands before [s], and the schema argument, are ignored. *)
Theorem get_names_parts (sql_bridge : bridge) (schema : option string)
    (before : list string) (s t : string) :
  Forall (λ x, free_of dot x = true) (before ++ [s; t]) →
  get_names sql_bridge t schema
  = Some (t, default (default_schema sql_bridge) schema)
  ∧ get_names sql_bridge (String.concat "." (before ++ [s; t])) schema = Some (t, s).
Proof.
  intros Hall. unfold get_names. split.
  - rewrite str_split_free.
    + cbn. by destruct schema.
    + rewrite Forall_app in Hall. destruct Hall as [_ Hst].
      by apply Forall_cons in Hst as [_ [Ht _]%Forall_cons].
  - change "."%string with (String dot EmptyString).
    rewrite str_split_concat; [|by destruct before|done].
    unfold last_but. rewrite !length_app. cbn [length].
    rewrite !decide_True by lia.
    replace (length before + 2 - 1)%nat with (length before + 1)%nat by lia.
    replace (length before + 2 - 2)%nat with (length before + 0)%nat by lia.
    rewrite !lookup_app_r by lia.
    replace (length before + 1 - length before)%nat with 1%nat by lia.
    replace (length before + 0 - length before)%nat with 0%nat by lia.
    cbn. by rewrite decide_True by lia.
Qed.

Lemma get_names_parts_witness :
  Forall (λ x, free_of dot x = true) (["warehouse"] ++ ["staging"; "jobs"])
  ∧ get_names PostgresBridge "jobs" None
    = Some ("jobs", default (default_schema PostgresBridge) None)
  ∧ get_names PostgresBridge (String.concat "." (["warehouse"] ++ ["staging"; "jobs"]))
      None
    = Some ("jobs", "staging").
Proof.
  assert (Forall (λ x, free_of dot x = true) (["warehouse"] ++ ["staging"; "jobs"])) as H
    by (repeat constructor).
  split; [exact H|].
  exact (get_names_parts PostgresBridge None ["warehouse"] "staging" "jobs" H).
Defined.

(** [get_names] is total: it raises for no table name, and the table
    name it returns has no dot in it. *)
Theorem get_names_total (sql_bridge : bridge) (table : string) (schema : option string) :
  ∃ table_name schema_name,
    get_names sql_bridge table schema = Some (table_name, schema_name)
    ∧ free_of dot table_name = true
    ∧ ((1 < length (str_split dot table))%nat ∨
       schema_name = default (default_schema sql_bridge) schema).
Proof.
  assert (∀ s, Forall (λ x, free_of dot x = true) (str_split dot s)) as Hfree.
  { induction s as [|c s IH]; [by repeat constructor|]. cbn [str_split].
    case_bool_decide as Hc; [by constructor|].
    destruct (str_split dot s) as [|x l].
    - repeat constructor. cbn [free_of]. by rewrite bool_decide_false.
    - apply Forall_cons in IH as [Hx Hl]. constructor; [|done].
      cbn [free_of]. by rewrite bool_decide_false. }
  unfold get_names, last_but.
  pose proof (str_split_nonempty dot table) as Hne.
  pose proof (Hfree table) as Hall.
  destruct (str_split dot table) as [|x l] eqn:E; [done|].
  rewrite (decide_True (P := (0 < length (x :: l))%nat)) by (cbn; lia).
  destruct (lookup_lt_is_Some_2 (x :: l) (length (x :: l) - 1)) as [t Ht];
    [cbn; lia|].
  rewrite Ht. cbn [mbind option_bind].
  assert (free_of dot t = true) as Hfr.
  { rewrite Forall_forall in Hall. apply Hall. by eapply list_elem_of_lookup_2. }
  case_decide as Hlen.
  - destruct (lookup_lt_is_Some_2 (x :: l) (length (x :: l) - 2)) as [s Hs];
      [cbn in *; lia|].
    rewrite Hs. cbn. exists t, s. split; [done|]. split; [done|]. by left.
  - exists t, (default (default_schema sql_bridge) schema).
    split; [by destruct schema|]. split; [done|]. by right.
Qed.

(** ** The two ways of writing a frame *)


(** ** The registry of connection parameters *)

Lemma find_first {A} (f : A → bool) (l : list A) (x : A) :
  List.find f l = Some x →
  ∃ l1 l2, l = l1 ++ x :: l2 ∧ f x = true ∧ Forall (λ y, f y = false) l1.
Proof.
  induction l as [|y l IH]; [done|]. cbn [List.find].
  destruct (f y) eqn:E.
  - intros [= ->]. exists [], l. by repeat split.
  - intros (l1 & l2 & -> & Hx & Hl1)%IH. exists (y :: l1), l2.
    repeat split; [done|]. by constructor.
Qed.

Lemma find_is_Some {A} (f : A → bool) (l : list A) (x : A) :
  x ∈ l → f x = true → is_Some (List.find f l).
Proof.
  induction l as [|y l IH]; [by intros ?%elem_of_nil|].
  intros [->|Hx]%elem_of_cons Hf; cbn [List.find].
  - by rewrite Hf.
  - destruct (f y); [done | by apply IH].
Qed.

Lemma item_registered reg k e :
  NoDup reg.*1 → (k, e) ∈ reg → SQLParams.item reg k = Some e.
Proof.
  unfold SQLParams.item. induction reg as [|[k' e'] reg IH]; [by intros _ ?%elem_of_nil|].
  rewrite fmap_cons, NoDup_cons. intros [Hk Hn] [[= -> ->]|Hin]%elem_of_cons;
    cbn [List.find fst].
  - by rewrite bool_decide_true.
  - rewrite bool_decide_false; [by apply IH|].
    intros ->. apply Hk. apply list_elem_of_fmap. by exists (k, e).
Qed.

Lemma from_json_registered reg k e :
  NoDup reg.*1 → (k, e) ∈ reg →
  SQLParams.from_json reg k = inr (SQLParams.of_entry e).
Proof.
  intros Hn Hin. unfold SQLParams.from_json.
  rewrite bool_decide_true by (apply list_elem_of_fmap; by exists (k, e)).
  by rewrite (item_registered reg k e).
Qed.

Lemma matches_of_entry e e' :
  SQLParams.matches (SQLParams.of_entry e) e' = bool_decide (e' = e).
Proof.
  unfold SQLParams.matches, SQLParams.of_entry. cbn.
  rewrite orb_false_r. destruct e as [h d u p n t], e' as [h' d' u' p' n' t']. cbn.
  repeat case_bool_decide; simplify_eq; done.
Qed.

(** [get_nickname] answers the first nickname registered with the six
    values, which need not be the nickname the parameters were loaded
    from.  For a registered nickname it never raises; and when no two
    nicknames are registered with the same six values, loading a
    nickname with [from_json] and asking [get_nickname] gives the
    nickname back. *)
Theorem get_nickname_first (SQL_PARAMS : SQLParams.registry) (k : string)
    (e : SQLParams.entry) :
  NoDup SQL_PARAMS.*1 → (k, e) ∈ SQL_PARAMS →
  ∃ self l1 k' l2,
    SQLParams.from_json SQL_PARAMS k = inr self
    ∧ SQLParams.get_nickname SQL_PARAMS self = inr k'
    ∧ SQL_PARAMS = l1 ++ (k', e) :: l2
    ∧ (e ∉ l1.*2)
    ∧ (NoDup SQL_PARAMS.*2 → k' = k).
Proof.
  intros Hn Hin. exists (SQLParams.of_entry e).
  unfold SQLParams.get_nickname.
  destruct (find_is_Some (λ kv, SQLParams.matches (SQLParams.of_entry e) kv.2)
              SQL_PARAMS (k, e) Hin) as [[k' e'] Hf].
  { cbn. rewrite matches_of_entry. by apply bool_decide_eq_true. }
  rewrite Hf. apply find_first in Hf as (l1 & l2 & Heq & Hm & Hl1).
  cbn in Hm. rewrite matches_of_entry in Hm. apply bool_decide_eq_true in Hm as ->.
  exists l1, k', l2. split; [by apply from_json_registered|].
  split; [done|]. split; [done|]. split.
  - intros (kv & -> & Hkv)%list_elem_of_fmap.
    rewrite Forall_forall in Hl1. specialize (Hl1 kv Hkv). cbn in Hl1.
    rewrite matches_of_entry in Hl1. by apply bool_decide_eq_false in Hl1.
  - intros Hne.
    assert ((k', e) ∈ SQL_PARAMS) as Hin'.
    { rewrite Heq. apply elem_of_app. right. apply list_elem_of_here. }
    apply list_elem_of_lookup in Hin as [i Hi].
    apply list_elem_of_lookup in Hin' as [j Hj].
    assert (i = j) as ->; [|congruence].
    eapply NoDup_lookup; [exact Hne| |].
    + by rewrite list_lookup_fmap, Hi.
    + by rewrite list_lookup_fmap, Hj.
Qed.

Lemma get_nickname_first_witness :
  NoDup sample_registry.*1
  ∧ ("reports", SQLParams.mkEntry "db1" "sales" "ann" "pw" 5432 POSTGRES) ∈ sample_registry
  ∧ ∃ self l1 k' l2,
      SQLParams.from_json sample_registry "reports" = inr self
      ∧ SQLParams.get_nickname sample_registry self = inr k'
      ∧ sample_registry
        = l1 ++ (k', SQLParams.mkEntry "db1" "sales" "ann" "pw" 5432 POSTGRES) :: l2
      ∧ (SQLParams.mkEntry "db1" "sales" "ann" "pw" 5432 POSTGRES ∉ l1.*2)
      ∧ (NoDup sample_registry.*2 → k' = "reports").
Proof.
  assert (NoDup sample_registry.*1) as H1
    by (apply (bool_decide_unpack _); vm_compute; exact I).
  assert (("reports", SQLParams.mkEntry "db1" "sales" "ann" "pw" 5432 POSTGRES)
          ∈ sample_registry) as H2
    by (apply (bool_decide_unpack _); vm_compute; exact I).
  split; [exact H1|]. split; [exact H2|].
  exact (get_nickname_first sample_registry "reports"
           (SQLParams.mkEntry "db1" "sales" "ann" "pw" 5432 POSTGRES) H1 H2).
Defined.

Lemma find_app_first {A} (f : A → bool) (l1 l2 : list A) :
  List.find f (l1 ++ l2)
  = match List.find f l1 with Some x => Some x | None => List.find f l2 end.
Proof.
  induction l1 as [|x l1 IH]; [done|]. cbn [app List.find]. by destruct (f x).
Qed.

Lemma find_absent_key (reg : SQLParams.registry) k :
  k ∉ reg.*1 → List.find (λ kv, bool_decide (kv.1 = k)) reg = None.
Proof.
  induction reg as [|[k' e'] reg IH]; [done|].
  rewrite fmap_cons, not_elem_of_cons. cbn. intros [Hk Hn].
  rewrite bool_decide_false by done. by apply IH.
Qed.

(** [add_sql_nickname] raises [KeyError] for a nickname that is taken.
    Otherwise it registers the nickname after the others: the keys stay
    distinct, [from_json] then answers the six values of the object for
    the new nickname (with [diff_database] back to [False]), and answers
    as before for every other nickname. *)
Theorem add_sql_nickname_registers (SQL_PARAMS : SQLParams.registry) (nickname : string)
    (sqlparams_object : SQLParams.params) :
  (nickname ∈ SQL_PARAMS.*1 →
   SQLParams.add_sql_nickname SQL_PARAMS nickname sqlparams_object
   = inl (SQLParams.KeyError "This nickname is already taken"))
  ∧ (nickname ∉ SQL_PARAMS.*1 →
     ∃ registered,
       SQLParams.add_sql_nickname SQL_PARAMS nickname sqlparams_object = inr registered
       ∧ SQLParams.get_sql_nicknames registered
         = SQLParams.get_sql_nicknames SQL_PARAMS ++ [nickname]
       ∧ (NoDup SQL_PARAMS.*1 → NoDup registered.*1)
       ∧ SQLParams.from_json registered nickname
         = inr (SQLParams.mkParams
                  (SQLParams.host sqlparams_object) (SQLParams.database sqlparams_object)
                  (SQLParams.username sqlparams_object)
                  (SQLParams.password sqlparams_object)
                  (SQLParams.port sqlparams_object) (SQLParams.type sqlparams_object)
                  false)
       ∧ ∀ k, k ≠ nickname →
              SQLParams.from_json registered k = SQLParams.from_json SQL_PARAMS k).
Proof.
  unfold SQLParams.add_sql_nickname. split; intros Hk.
  - by rewrite bool_decide_true.
  - rewrite bool_decide_false by done. eexists. split; [done|].
    unfold SQLParams.get_sql_nicknames. rewrite fmap_app. cbn [fmap list_fmap fst].
    split; [done|]. split; [|split].
    + intros Hn. apply NoDup_app. split; [done|]. split; [|apply NoDup_singleton].
      intros x Hx ->%list_elem_of_singleton. done.
    + unfold SQLParams.from_json, SQLParams.item.
      rewrite fmap_app, bool_decide_true
        by (apply elem_of_app; right; apply list_elem_of_here).
      rewrite find_app_first, find_absent_key by done. cbn.
      by rewrite bool_decide_true.
    + intros k Hne. unfold SQLParams.from_json, SQLParams.item.
      rewrite fmap_app, find_app_first. cbn [fmap list_fmap fst List.find].
      rewrite (bool_decide_false (nickname = k)) by done.
      assert (bool_decide (k ∈ SQL_PARAMS.*1 ++ [nickname])
              = bool_decide (k ∈ SQL_PARAMS.*1)) as ->.
      { apply bool_decide_ext. rewrite elem_of_app, list_elem_of_singleton. tauto. }
      by destruct (List.find _ SQL_PARAMS).
Qed.

(** [change_database] for a registered nickname.  It raises the
    [RuntimeError] of [bridge_factory] when the type of the nickname is
    not a supported one, and the error of the bridge's [get_engine] when
    the engine cannot be made for the nickname's parameters or for the
    parameters with the new database.  Otherwise it returns a connection
    whose parameters carry the new database, and for these parameters
    [get_nickname] does not raise but answers a registered nickname whose
    host, user, password, port and type are those of the nickname the
    connection was made from. *)
Theorem change_database_keeps_nickname (get_engine : bridge → SQLParams.params → bool)
    (SQL_PARAMS : SQLParams.registry) (sql_nickname database_name : string)
    (e : SQLParams.entry) :
  NoDup SQL_PARAMS.*1 → (sql_nickname, e) ∈ SQL_PARAMS →
  ∃ self k' e',
    SQLParams.change_database get_engine SQL_PARAMS sql_nickname database_name
    = match bridge_factory (SQLParams.e_type e) with
      | None =>
          inl (SQLParams.RuntimeError
                 ("We do not support a bulk load for SQLConn connection type "
                  +:+ SQLParams.e_type e))
      | Some b =>
          if get_engine b (SQLParams.of_entry e) && get_engine b self
          then inr self else inl SQLParams.EngineError
      end
    ∧ SQLParams.database self = database_name
    ∧ SQLParams.get_nickname SQL_PARAMS self = inr k'
    ∧ (k', e') ∈ SQL_PARAMS
    ∧ SQLParams.same_server e e'.
Proof.
  intros Hn Hin.
  exists (SQLParams.mkParams (SQLParams.e_host e) database_name (SQLParams.e_username e)
            (SQLParams.e_password e) (SQLParams.e_port e) (SQLParams.e_type e) true).
  unfold SQLParams.get_nickname.
  match goal with |- context [List.find ?f SQL_PARAMS] =>
    destruct (find_is_Some f SQL_PARAMS (sql_nickname, e) Hin) as [[k' e'] Hf]
  end.
  { unfold SQLParams.matches. cbn. rewrite orb_true_r.
    by rewrite !(bool_decide_true (_ = _)) by done. }
  exists k', e'. rewrite Hf. split; [|split; [done|]; split; [done|]].
  - unfold SQLParams.change_database.
    rewrite (from_json_registered _ _ e) by done.
    unfold SQLParams.connect, SQLParams.of_entry. cbn [SQLParams.type].
    destruct (bridge_factory (SQLParams.e_type e)) as [b|] eqn:Eb; [|done].
    destruct (get_engine b (SQLParams.mkParams _ (SQLParams.e_database e) _ _ _ _ _));
      [|done].
    cbn [andb SQLParams.type SQLParams.host SQLParams.username SQLParams.password
         SQLParams.port].
    rewrite Eb. by destruct (get_engine b _).
  - apply find_first in Hf as (l1 & l2 & -> & Hm & _). split.
    + apply elem_of_app. right. apply list_elem_of_here.
    + unfold SQLParams.matches in Hm. cbn in Hm.
      rewrite !andb_true_iff, !bool_decide_eq_true in Hm.
      unfold SQLParams.same_server. tauto.
Qed.

Lemma change_database_keeps_nickname_witness :
  NoDup sample_registry.*1
  ∧ ("scratch", SQLParams.mkEntry "local" "tmp.db" "ann" "pw" 0 SQLITE) ∈ sample_registry
  ∧ ∃ self k' e',
      SQLParams.change_database (λ _ _, true) sample_registry "scratch" "other.db"
      = match bridge_factory
                (SQLParams.e_type (SQLParams.mkEntry "local" "tmp.db" "ann" "pw" 0 SQLITE))
        with
        | None =>
            inl (SQLParams.RuntimeError
                   ("We do not support a bulk load for SQLConn connection type "
                    +:+ SQLParams.e_type
                          (SQLParams.mkEntry "local" "tmp.db" "ann" "pw" 0 SQLITE)))
        | Some b =>
            if (λ _ _, true) b
                 (SQLParams.of_entry (SQLParams.mkEntry "local" "tmp.db" "ann" "pw" 0 SQLITE))
               && (λ _ _, true) b self
            then inr self else inl SQLParams.EngineError
        end
      ∧ SQLParams.database self = "other.db"
      ∧ SQLParams.get_nickname sample_registry self = inr k'
      ∧ (k', e') ∈ sample_registry
      ∧ SQLParams.same_server (SQLParams.mkEntry "local" "tmp.db" "ann" "pw" 0 SQLITE) e'.
Proof.
  assert (NoDup sample_registry.*1) as H1
    by (apply (bool_decide_unpack _); vm_compute; exact I).
  assert (("scratch", SQLParams.mkEntry "local" "tmp.db" "ann" "pw" 0 SQLITE)
          ∈ sample_registry) as H2
    by (apply (bool_decide_unpack _); vm_compute; exact I).
  split; [exact H1|]. split; [exact H2|].
  exact (change_database_keeps_nickname (λ _ _, true) sample_registry "scratch" "other.db"
           (SQLParams.mkEntry "local" "tmp.db" "ann" "pw" 0 SQLITE) H1 H2).
Defined.

(** A nickname of a type that is not supported: [change_database] raises
    before any parameter is changed. *)
Example change_database_unsupported :
  SQLParams.change_database (λ _ _, true)
    [("legacy", SQLParams.mkEntry "db9" "main" "ann" "pw" 1521 "oracle")] "legacy" "other"
  = inl (SQLParams.RuntimeError
           "We do not support a bulk load for SQLConn connection type oracle").
Proof. reflexivity. Qed.

(** ** Creating the table again *)

(** [create_table] can be run again on the dict it has filled in: the
    second call leaves the dict as it is and executes the same statement.
    And a dict whose keys are distinct keeps distinct keys, so no column
    is declared twice. *)
Theorem create_table_again (squeue_name : string)
    (column_descriptions described : list (string * string)) (sql : string) :
  create_table squeue_name column_descriptions POSTGRES = inr (described, sql) →
  create_table squeue_name described POSTGRES = inr (described, sql)
  ∧ (NoDup column_descriptions.*1 → NoDup described.*1).
Proof.
  unfold create_table. rewrite bool_decide_true by done. cbv zeta.
  change (dict_set SQ_ID "serial primary key" (dict_set SQ_GET_HOSTNAME "text"
           (dict_set SQ_PUT_HOSTNAME "text" (dict_set SQ_FINISH_TIME "timestamp"
           (dict_set SQ_GET_TIME "timestamp" (dict_set SQ_CLAIM_TIME "timestamp"
           (dict_set SQ_PUT_TIME "timestamp default now()" (dict_set SQ_PRIORITY "int"
           (dict_set SQ_STATUS "varchar(20)" column_descriptions)))))))))
    with (foldl (λ d kv, dict_set kv.1 kv.2 d) column_descriptions declared_columns).
  change (dict_set SQ_ID "serial primary key" (dict_set SQ_GET_HOSTNAME "text"
           (dict_set SQ_PUT_HOSTNAME "text" (dict_set SQ_FINISH_TIME "timestamp"
           (dict_set SQ_GET_TIME "timestamp" (dict_set SQ_CLAIM_TIME "timestamp"
           (dict_set SQ_PUT_TIME "timestamp default now()" (dict_set SQ_PRIORITY "int"
           (dict_set SQ_STATUS "varchar(20)" described)))))))))
    with (foldl (λ d kv, dict_set kv.1 kv.2 d) described declared_columns).
  intros [= Hd Hs].
  assert (NoDup declared_columns.*1) as Hdecl
    by (apply (bool_decide_unpack _); vm_compute; exact I).
  split.
  - rewrite (declare_same declared_columns described).
    + rewrite Hd in Hs. by rewrite Hs.
    + intros k v Hin. rewrite <- Hd.
      exact (declare_get k v declared_columns column_descriptions Hdecl Hin).
  - intros Hn. rewrite <- Hd.
    exact (declare_NoDup declared_columns column_descriptions Hn).
Qed.

Lemma create_table_again_witness :
  ∃ described sql,
    create_table "jobs" [("job", "text"); ("sq_priority", "text")] POSTGRES
    = inr (described, sql)
    ∧ create_table "jobs" described POSTGRES = inr (described, sql)
    ∧ (NoDup [("job", "text"); ("sq_priority", "text")].*1 → NoDup described.*1).
Proof.
  assert (∃ described sql,
            create_table "jobs" [("job", "text"); ("sq_priority", "text")] POSTGRES
            = inr (described, sql)) as (described & sql & H)
    by (do 2 eexists; vm_compute; reflexivity).
  exists described, sql. split; [exact H|].
  exact (create_table_again "jobs" [("job", "text"); ("sq_priority", "text")]
           described sql H).
Defined.

(** ** File modes *)

Lemma testbit_0o444 n : 0 ≤ n → Z.testbit 292 n = bool_decide (n ∈ [2; 5; 8]).
Proof.
  intros Hn. destruct (decide (n ≤ 8)) as [Hle|Hgt].
  - assert (n = 0 ∨ n = 1 ∨ n = 2 ∨ n = 3 ∨ n = 4 ∨ n = 5 ∨ n = 6 ∨ n = 7 ∨ n = 8)
      as Hcases by lia.
    destruct Hcases as [->|[->|[->|[->|[->|[->|[->|[->| ->]]]]]]]]; reflexivity.
  - rewrite Z.bits_above_log2 by (try done; change (Z.log2 292) with 8; lia).
    symmetry. apply bool_decide_eq_false.
    rewrite !elem_of_cons, elem_of_nil. lia.
Qed.

Lemma make_executable_testbit st n :
  0 ≤ n →
  Z.testbit (make_executable st) n
  = Z.testbit st n || (bool_decide (n ∈ execute_bits) && Z.testbit st (n + 2)).
Proof.
  intros Hn. unfold make_executable, execute_bits.
  rewrite Z.lor_spec, Z.shiftr_spec, Z.land_spec, testbit_0o444 by lia.
  f_equal. rewrite andb_comm. f_equal. apply bool_decide_ext.
  rewrite !elem_of_cons, !elem_of_nil. lia.
Qed.

(** [make_executable] gives execute permission to whoever may read: an
    execute bit of the new mode is set exactly when it was set or the
    read bit of the same class (two positions up) is set, every other bit
    of the mode is as it was, and applying it a second time changes
    nothing. *)
Theorem make_executable_bits (st : Z) :
  (∀ n, 0 ≤ n →
        Z.testbit (make_executable st) n
        = if bool_decide (n ∈ execute_bits)
          then Z.testbit st n || Z.testbit st (n + 2)
          else Z.testbit st n)
  ∧ make_executable (make_executable st) = make_executable st.
Proof.
  split.
  - intros n Hn. rewrite make_executable_testbit by done.
    destruct (bool_decide (n ∈ execute_bits)); [done | by rewrite orb_false_r].
  - apply Z.bits_inj'. intros n Hn.
    rewrite !make_executable_testbit by lia.
    destruct (bool_decide (n ∈ execute_bits)) eqn:E; [|by rewrite !orb_false_r].
    rewrite (bool_decide_false (n + 2 ∈ execute_bits)).
    + cbn [andb]. rewrite orb_false_r. by destruct (Z.testbit st n), (Z.testbit st (n + 2)).
    + apply bool_decide_eq_true in E. unfold execute_bits in *.
      rewrite !elem_of_cons, !elem_of_nil in *. lia.
Qed.

(** The mode [0o644] becomes [0o755]. *)
Example make_executable_644 : make_executable 420 = 493.
Proof. reflexivity. Qed.

(** ** Snowflake: frames against upper-case column names *)

Lemma index_Some x l : x ∈ l → ∃ i, index x l = Some i ∧ l !! i = Some x.
Proof.
  intros Hx. unfold index.
  destruct (list_find (λ y, y = x) l) as [[i y]|] eqn:E.
  - apply list_find_Some in E as (Hi & -> & _). by exists i.
  - apply list_find_None in E. rewrite Forall_forall in E. by destruct (E x Hx).
Qed.

Lemma index_None x l : x ∉ l → index x l = None.
Proof.
  intros Hx. unfold index.
  destruct (list_find (λ y, y = x) l) as [[i y]|] eqn:E; [|done].
  apply list_find_Some in E as (Hi & -> & _).
  exfalso. apply Hx. by eapply list_elem_of_lookup_2.
Qed.

Lemma bad_indices_Some cols colsU bad :
  (∀ col, col ∈ bad → col ∈ cols) →
  ∃ indices, Snowflake.bad_indices cols colsU bad = Some indices
             ∧ Forall2 (λ col idx, cols !! idx = Some col)
                       (filter (λ col, col ∈ colsU) bad) indices.
Proof.
  induction bad as [|col bad IH]; intros Hall; [by exists []|].
  destruct IH as (indices & Hi & HF); [intros; by apply Hall, list_elem_of_further|].
  cbn [Snowflake.bad_indices]. rewrite filter_cons. case_bool_decide as Hc.
  - destruct (index_Some col cols) as (i & Hidx & Hl); [apply Hall, list_elem_of_here|].
    rewrite Hidx, Hi. cbn. exists (i :: indices). split; [done|].
    rewrite decide_True by done. by constructor.
  - exists indices. split; [done|]. by rewrite decide_False by done.
Qed.

Lemma bad_indices_None cols colsU bad col :
  col ∈ bad → col ∈ colsU → col ∉ cols → Snowflake.bad_indices cols colsU bad = None.
Proof.
  induction bad as [|x bad IH]; [by intros ?%elem_of_nil|].
  intros [->|Hin]%elem_of_cons HU Hn; cbn [Snowflake.bad_indices].
  - rewrite bool_decide_true by done. by rewrite index_None.
  - rewrite IH by done. case_bool_decide; [|done]. by destruct (index x cols).
Qed.

Lemma drop_by_index (cols labels : list string) (indices : list nat) (df : DataFrame) :
  Forall2 (λ col idx, cols !! idx = Some col) labels indices →
  foldl (λ df idx, match cols !! idx with
                   | Some label => df_drop label df
                   | None => df
                   end) df indices
  = foldl (λ df label, df_drop label df) df labels.
Proof.
  intros HF. revert df. induction HF as [|col idx labels indices Hl _ IH]; intros df;
    [done|].
  cbn [foldl]. by rewrite Hl, IH.
Qed.

Lemma columns_drop_labels labels df :
  columns (foldl (λ df label, df_drop label df) df labels)
  = filter (λ c, c ∉ labels) (columns df).
Proof.
  revert df. induction labels as [|x labels IH]; intros df; cbn [foldl].
  - induction (columns df) as [|c l IHl]; [done|].
    rewrite filter_cons_True by apply not_elem_of_nil. by f_equal.
  - rewrite IH. cbn [df_drop columns]. rewrite list_filter_filter.
    apply list_filter_iff. intros c. rewrite not_elem_of_cons. tauto.
Qed.

Lemma records_drop_labels labels df :
  Forall2 (λ rec rec', ∀ c, c ∉ labels → rec' !! c = rec !! c)
          (records df) (records (foldl (λ df label, df_drop label df) df labels)).
Proof.
  revert df. induction labels as [|x labels IH]; intros df; cbn [foldl].
  - apply Forall_Forall2_diag, Forall_forall. done.
  - specialize (IH (df_drop x df)). cbn [df_drop records] in IH.
    apply Forall2_fmap_l in IH. eapply Forall2_impl; [exact IH|]. cbv beta.
    intros rec rec' H c [Hx Hc]%not_elem_of_cons.
    rewrite H by done. by rewrite lookup_delete_ne.
Qed.

Lemma bad_columns_spec (df : DataFrame) (sql_columns : list string) c :
  c ∈ elements ((list_to_set (upper <$> columns df) : gset string)
                ∖ list_to_set (upper <$> sql_columns))
  ↔ dropped_label df sql_columns c = true.
Proof.
  unfold dropped_label.
  rewrite elem_of_elements, elem_of_difference, !elem_of_list_to_set.
  rewrite andb_true_iff, negb_true_iff, bool_decide_eq_true, bool_decide_eq_false. done.
Qed.

(** Snowflake's [get_df_interesection] compares names in upper case but
    looks the columns to drop up, and drops them, under their upper-case
    name.  It raises [ValueError] exactly when the frame has a column
    unknown to the table whose upper-case form is not itself a label of
    the frame; so a lower-case column that the table lacks is not
    dropped, it makes the call fail.  When the call returns, the labels
    dropped are the upper-case forms of the unknown columns: every other
    column is kept with its values, in the order of the frame. *)
Theorem snowflake_intersection (df : DataFrame) (sql_columns : list string) :
  (Snowflake.get_df_interesection df sql_columns = None
   ↔ ∃ c, unknown_column df sql_columns c ∧ upper c ∉ columns df)
  ∧ ∀ df', Snowflake.get_df_interesection df sql_columns = Some df' →
           columns df' = filter (λ c, dropped_label df sql_columns c = false) (columns df)
           ∧ Forall2 (λ rec rec',
                        ∀ c, dropped_label df sql_columns c = false → rec' !! c = rec !! c)
                     (records df) (records df').
Proof.
  unfold Snowflake.get_df_interesection. cbv zeta.
  set (bad := elements ((list_to_set (upper <$> columns df) : gset string)
                        ∖ list_to_set (upper <$> sql_columns))).
  assert (∀ c, c ∈ bad ↔ dropped_label df sql_columns c = true) as Hbad
    by apply bad_columns_spec.
  assert (∀ c, c ∈ bad → c ∈ upper <$> columns df) as HbadU.
  { intros c [H _]%Hbad%andb_true_iff. by apply bool_decide_eq_true in H. }
  assert ((∃ c, unknown_column df sql_columns c ∧ upper c ∉ columns df)
          ↔ ∃ col, col ∈ bad ∧ col ∉ columns df) as Hex.
  { split.
    - intros (c & [Hc Hn] & Hu). exists (upper c). split; [|done].
      apply Hbad. unfold dropped_label.
      rewrite bool_decide_true by (apply list_elem_of_fmap; eauto).
      by rewrite bool_decide_false.
    - intros (col & Hin & Hn). pose proof (HbadU col Hin) as (c & -> & Hc)%list_elem_of_fmap.
      exists c. split; [|done]. split; [done|].
      apply Hbad in Hin as [_ H]%andb_true_iff.
      by apply negb_true_iff, bool_decide_eq_false in H. }
  destruct (decide (Forall (λ col, col ∈ columns df) bad)) as [Hall|Hnot].
  - rewrite Forall_forall in Hall.
    destruct (bad_indices_Some (columns df) (upper <$> columns df) bad Hall)
      as (indices & Hi & HF).
    rewrite Hi. cbn [mbind option_bind].
    assert (filter (λ col, col ∈ upper <$> columns df) bad = bad) as Hfil.
    { clear -HbadU. induction bad as [|x bad IH]; [done|].
      rewrite filter_cons_True by apply HbadU, list_elem_of_here.
      f_equal. apply IH. intros. by apply HbadU, list_elem_of_further. }
    rewrite Hfil in HF. rewrite (drop_by_index _ _ _ _ HF). split.
    + split; [done|]. rewrite Hex. intros (col & Hin & Hn). by destruct (Hn (Hall col Hin)).
    + intros df' [= <-]. split.
      * rewrite columns_drop_labels. apply list_filter_iff. intros c.
        rewrite Hbad. by destruct (dropped_label df sql_columns c).
      * eapply Forall2_impl; [apply records_drop_labels|]. cbv beta.
        intros rec rec' H c Hc. apply H. rewrite Hbad, Hc. done.
  - apply not_Forall_Exists in Hnot; [|apply _].
    apply Exists_exists in Hnot as (col & Hin & Hn).
    rewrite (bad_indices_None _ _ _ col) by auto. cbn. split; [|done].
    split; [|done]. intros _. apply Hex. eauto.
Qed.

(** A frame in lower case with a column the table lacks makes the call
    fail; a frame that has such a column in both spellings loses the
    upper-case one only. *)
Example snowflake_lower_case :
  Snowflake.get_df_interesection lower_case_frame ["JOB"] = None
  ∧ columns <$> Snowflake.get_df_interesection two_spellings_frame ["JOB"]
    = Some ["extra"].
Proof. split; vm_compute; reflexivity. Qed.

(** ** Dropping and creating before a bulk load *)

(** [_determine_table] follows the table of its docstring.  It refuses
    any [if_exists] other than [replace] and [append] before it touches
    the database.  Given one of the two and a [table_state] that is one
    of the three constants: when the table exists (as told, or as
    [get_columns] finds when the state is unknown) it drops and creates
    the table for [replace], not creating when the drop raises, and does
    nothing for [append]; when the table does not exist it creates it;
    and when [get_columns] raises so does the call.  With a [table_state]
    that is none of the three constants it does nothing at all. *)
Theorem determine_table_ensures {S : Type} (get_columns : S → option (list string))
    (drop_table create : S → outcome S) (table_state : Z) (if_exists : string) (st : S) :
  (if_exists ∉ ["replace"; "append"] →
   BaseSQLBridge._determine_table get_columns drop_table create table_state if_exists st
   = Raised st)
  ∧ (if_exists ∈ ["replace"; "append"] →
     table_state ∈ [TABLE_STATE_UNKNOWN; TABLE_STATE_EXISTS; TABLE_STATE_NO_EXISTS] →
     BaseSQLBridge._determine_table get_columns drop_table create table_state if_exists st
     = match told get_columns table_state st with
       | None => Raised st
       | Some false => create st
       | Some true =>
           if bool_decide (if_exists = "replace") then
             match drop_table st with
             | Returned st' => create st'
             | Raised st' => Raised st'
             end
           else Returned st
       end)
  ∧ (if_exists ∈ ["replace"; "append"] →
     table_state ∉ [TABLE_STATE_UNKNOWN; TABLE_STATE_EXISTS; TABLE_STATE_NO_EXISTS] →
     BaseSQLBridge._determine_table get_columns drop_table create table_state if_exists st
     = Returned st).
Proof.
  unfold BaseSQLBridge._determine_table, told. split; [|split].
  - intros Hn. by rewrite bool_decide_false.
  - intros Hin Ht. rewrite (bool_decide_true _ Hin). cbn [negb].
    assert (if_exists = "replace" ∨ if_exists = "append") as [-> | ->]
      by (rewrite !elem_of_cons, elem_of_nil in Hin; tauto);
      rewrite !elem_of_cons, elem_of_nil in Ht;
      destruct Ht as [-> | [-> | [-> | []]]]; cbn;
      try (destruct (get_columns st) as [[|c l]|]; cbn);
      try (destruct (drop_table st)); reflexivity.
  - intros Hin Hn. rewrite (bool_decide_true _ Hin). cbn [negb].
    rewrite !not_elem_of_cons in Hn. destruct Hn as (H0 & H1 & H2 & _).
    rewrite (bool_decide_false (table_state = TABLE_STATE_UNKNOWN)) by done.
    rewrite (bool_decide_false (table_state = TABLE_STATE_EXISTS)) by done. cbn [andb].
    by rewrite (bool_decide_false (table_state = TABLE_STATE_NO_EXISTS)) by done.
Qed.

Lemma determine_table_ensures_witness :
  ("replace" ∈ ["replace"; "append"])
  ∧ (TABLE_STATE_UNKNOWN ∈ [TABLE_STATE_UNKNOWN; TABLE_STATE_EXISTS; TABLE_STATE_NO_EXISTS])
  ∧ BaseSQLBridge._determine_table (λ st : list string, Some st)
      (λ _, Returned []) (λ _, Returned ["job"]) TABLE_STATE_UNKNOWN "replace" ["old"]
    = Returned ["job"].
Proof.
  assert ("replace" ∈ ["replace"; "append"]) as H1 by apply list_elem_of_here.
  assert (TABLE_STATE_UNKNOWN
          ∈ [TABLE_STATE_UNKNOWN; TABLE_STATE_EXISTS; TABLE_STATE_NO_EXISTS]) as H2
    by apply list_elem_of_here.
  split; [exact H1|]. split; [exact H2|].
  exact (proj1 (proj2 (determine_table_ensures (λ st : list string, Some st)
                         (λ _, Returned []) (λ _, Returned ["job"])
                         TABLE_STATE_UNKNOWN "replace" ["old"])) H1 H2).
Defined.

(** ** Loading the configuration files *)

Lemma master_step_valid M item :
  Forall Init.valid M → Forall Init.valid (Init.master_step M item).
Proof.
  intros HM. unfold Init.master_step. case_bool_decide; [done|].
  destruct (Init.truthy (Init.c_username item.2)) eqn:Eu; [|done].
  destruct (Init.truthy (Init.c_password item.2)) eqn:Ep; [|done].
  cbn [andb]. apply Forall_app. split; [done|]. by repeat constructor.
Qed.

Lemma master_creds_valid found_configs : Forall Init.valid (Init.master_creds found_configs).
Proof.
  unfold Init.master_creds.
  assert (∀ M, Forall Init.valid M →
            Forall Init.valid
              (foldl (λ MASTER_CREDS config,
                        match Init.credentials config with
                        | Some section => foldl Init.master_step MASTER_CREDS section
                        | None => MASTER_CREDS
                        end) M found_configs)) as H; [|by apply H].
  induction found_configs as [|c l IH]; intros M HM; [done|]. cbn [foldl].
  apply IH. destruct (Init.credentials c) as [section|]; [|done].
  clear IH. revert M HM. induction section as [|item section IH]; intros M HM; [done|].
  cbn [foldl]. by apply IH, master_step_valid.
Qed.

Lemma resolve_no_connection_error M d :
  Forall Init.valid M → Init.resolve M d ≠ inl Init.ConnectionError.
Proof.
  intros HM. unfold Init.resolve.
  assert (match Init.lookup_type M (Init.d_type d) with
          | Some (u, p) =>
              if bool_decide (u = None) || bool_decide (p = None)
              then inl Init.ConnectionError
              else inr (Init.mkConnection (Init.d_host d) (Init.d_database d)
                          (Init.d_port d) (Init.d_type d) u p)
          | None => inl (Init.KeyError (Init.d_type d))
          end ≠ inl Init.ConnectionError) as Hm.
  { unfold Init.lookup_type.
    destruct (List.find _ M) as [[t [u p]]|] eqn:E; cbn; [|done].
    apply find_first in E as (l1 & l2 & -> & _ & _).
    apply Forall_app in HM as [_ [[Hu Hp] _]%Forall_cons]. cbn in Hu, Hp.
    destruct u; [|done]. destruct p; [|done]. done. }
  destruct (Init.d_username d), (Init.d_password d); done.
Qed.

Lemma params_fold_error M e l : foldl (Init.params_step M) (inl e) l = inl e.
Proof. induction l as [|x l IH]; [done|]. exact IH. Qed.

Lemma params_fold_no_connection_error M S l :
  Forall Init.valid M → S ≠ inl Init.ConnectionError →
  foldl (Init.params_step M) S l ≠ inl Init.ConnectionError.
Proof.
  intros HM. revert S. induction l as [|item l IH]; intros S HS; [done|]. cbn [foldl].
  apply IH. unfold Init.params_step. destruct S as [e|params]; [done|].
  case_bool_decide; [done|].
  pose proof (resolve_no_connection_error M item.2 HM) as Hr.
  destruct (Init.resolve M item.2) as [e|c]; [|done].
  intros [= ->]. by apply Hr.
Qed.

Lemma sql_params_items M found_configs :
  Init.sql_params M found_configs
  = foldl (Init.params_step M) (inr []) (Init.items found_configs).
Proof.
  unfold Init.sql_params, Init.items. generalize (@inr Init.load_error _ (@nil (string * Init.connection))).
  induction found_configs as [|c l IH]; intros S; [done|].
  cbn [foldl mbind list_bind]. rewrite foldl_app, <- IH.
  by destruct (Init.databases c).
Qed.

(** [MASTER_CREDS] only ever holds user names and passwords that are not
    empty, so the check that raises [ConnectionError] cannot fire:
    loading the files never raises it. *)
Theorem load_never_connection_error (found_configs : list Init.config) :
  Forall Init.valid (Init.master_creds found_configs)
  ∧ Init.load found_configs ≠ inl Init.ConnectionError.
Proof.
  split; [apply master_creds_valid|].
  unfold Init.load. destruct found_configs as [|c l]; [done|].
  pose proof (master_creds_valid (c :: l)) as HM.
  destruct (Init.master_creds (c :: l)) as [|m M] eqn:E; [done|].
  rewrite sql_params_items.
  pose proof (params_fold_no_connection_error (m :: M) (inr []) (Init.items (c :: l)) HM)
    as Hn.
  destruct (foldl _ _ _); [|done]. intros [= ->]. by apply Hn.
Qed.

Lemma params_fold_spec M l S0 SQL :
  foldl (Init.params_step M) (inr S0) l = inr SQL →
  (∀ kv, kv ∈ S0 → kv ∈ SQL)
  ∧ (NoDup S0.*1 → NoDup SQL.*1)
  ∧ ∀ l1 nick d l2,
      l = l1 ++ (nick, d) :: l2 → nick ∉ l1.*1 → nick ∉ S0.*1 →
      ∃ c, Init.resolve M d = inr c ∧ (nick, c) ∈ SQL.
Proof.
  revert S0. induction l as [|item l IH]; intros S0 H.
  - cbn in H. injection H as <-. split; [done|]. split; [done|].
    intros l1 ???? _ _. by destruct l1.
  - cbn [foldl] in H. unfold Init.params_step at 2 in H.
    destruct (decide (item.1 ∈ S0.*1)) as [Hin|Hin].
    + rewrite bool_decide_true in H by done.
      apply IH in H as (Hsub & Hnd & Hfirst). split; [done|]. split; [done|].
      intros l1 nick d l2 Hl Hn1 Hn0. destruct l1 as [|x l1].
      * cbn in Hl. injection Hl as -> ->. by destruct Hn0.
      * cbn in Hl. injection Hl as -> ->.
        rewrite fmap_cons, not_elem_of_cons in Hn1. destruct Hn1 as [_ Hn1].
        by eapply Hfirst.
    + rewrite bool_decide_false in H by done.
      destruct (Init.resolve M item.2) as [e|c] eqn:Er;
        [by rewrite params_fold_error in H|].
      apply IH in H as (Hsub & Hnd & Hfirst). split; [|split].
      * intros kv Hkv. apply Hsub, elem_of_app. by left.
      * intros Hn. apply Hnd. rewrite fmap_app. apply NoDup_app.
        split; [done|]. split; [|apply NoDup_singleton].
        intros x Hx ->%list_elem_of_singleton. done.
      * intros l1 nick d l2 Hl Hn1 Hn0. destruct l1 as [|x l1].
        -- cbn in Hl. injection Hl as -> ->. exists c. split; [done|].
           apply Hsub, elem_of_app. right. apply list_elem_of_here.
        -- cbn in Hl. injection Hl as -> ->.
           rewrite fmap_cons, not_elem_of_cons in Hn1. destruct Hn1 as [Hne Hn1].
           eapply Hfirst; [done|done|].
           rewrite fmap_app, elem_of_app. intros [?|Hx]; [done|].
           apply list_elem_of_singleton in Hx. cbn in Hx. done.
Qed.

Lemma first_of_key {A} (l : list (string * A)) k v :
  NoDup l.*1 → (k, v) ∈ l → ∃ l1 l2, l = l1 ++ (k, v) :: l2 ∧ k ∉ l1.*1.
Proof.
  intros Hn Hin. apply list_elem_of_split in Hin as (l1 & l2 & ->).
  exists l1, l2. split; [done|].
  rewrite fmap_app, fmap_cons in Hn. apply NoDup_app in Hn as (_ & Hdis & _).
  intros Hk. eapply Hdis; [exact Hk|]. apply list_elem_of_here.
Qed.

(** A nickname is taken whole from the file of highest priority that
    defines it; what files of lower priority say about it is ignored.
    Its user name and password are its own when the item has both keys,
    and otherwise both come from [MASTER_CREDS] under its type.  The
    nicknames of [SQL_PARAMS] are distinct. *)
Theorem load_first_file_wins (before after : list Init.config) (config : Init.config)
    (section : list (string * Init.database)) (nick : string) (d : Init.database)
    (MASTER_CREDS : Init.creds) (SQL_PARAMS : list (string * Init.connection)) :
  Init.load (before ++ config :: after) = inr (MASTER_CREDS, SQL_PARAMS) →
  Forall (λ c, nick ∉ Init.nicknames c) before →
  Init.databases config = Some section →
  NoDup section.*1 →
  (nick, d) ∈ section →
  NoDup SQL_PARAMS.*1
  ∧ ∃ c, (nick, c) ∈ SQL_PARAMS ∧ Init.resolve MASTER_CREDS d = inr c.
Proof.
  intros Hload Hbefore Hsec Hnd Hin.
  unfold Init.load in Hload.
  destruct (before ++ config :: after) as [|c0 l0] eqn:Ecfg; [done|]. rewrite <- Ecfg in Hload.
  destruct (Init.master_creds (before ++ config :: after)) as [|m M]; [done|].
  rewrite sql_params_items in Hload.
  destruct (foldl _ _ _) as [e|SQL] eqn:E; [done|].
  injection Hload as <- <-.
  apply params_fold_spec in E as (_ & Hnodup & Hfirst).
  split; [by apply Hnodup, NoDup_nil|].
  apply first_of_key in Hin as (s1 & s2 & -> & Hs1); [|done].
  destruct (Hfirst (Init.items before ++ s1) nick d (s2 ++ Init.items after))
    as (c & Hr & Hc).
  - unfold Init.items. rewrite bind_app, bind_cons, Hsec.
    by rewrite <- !app_assoc.
  - rewrite fmap_app, elem_of_app. intros [Hx|Hx]; [|done].
    apply list_elem_of_fmap in Hx as ([k d'] & -> & Hx).
    unfold Init.items in Hx. apply list_elem_of_bind in Hx as (c' & Hx & Hc').
    rewrite Forall_forall in Hbefore. apply (Hbefore c' Hc').
    unfold Init.nicknames. destruct (Init.databases c'); [|by apply elem_of_nil in Hx].
    apply list_elem_of_fmap. by exists (k, d').
  - apply not_elem_of_nil.
  - by exists c.
Qed.

Lemma load_first_file_wins_witness :
  ∃ MASTER_CREDS SQL_PARAMS,
    Init.load ([] ++ site_config :: [package_config]) = inr (MASTER_CREDS, SQL_PARAMS)
    ∧ Forall (λ c, "jobs" ∉ Init.nicknames c) []
    ∧ Init.databases site_config
      = Some [("jobs", Init.mkDatabase "db1" "sales" 5432 POSTGRES None None)]
    ∧ NoDup [("jobs", Init.mkDatabase "db1" "sales" 5432 POSTGRES None None)].*1
    ∧ ("jobs", Init.mkDatabase "db1" "sales" 5432 POSTGRES None None)
      ∈ [("jobs", Init.mkDatabase "db1" "sales" 5432 POSTGRES None None)]
    ∧ NoDup SQL_PARAMS.*1
    ∧ ∃ c, ("jobs", c) ∈ SQL_PARAMS
           ∧ Init.resolve MASTER_CREDS
               (Init.mkDatabase "db1" "sales" 5432 POSTGRES None None) = inr c.
Proof.
  assert (∃ M S, Init.load ([] ++ site_config :: [package_config]) = inr (M, S))
    as (M & S & H1) by (do 2 eexists; vm_compute; reflexivity).
  assert (Forall (λ c, "jobs" ∉ Init.nicknames c) []) as H2 by constructor.
  assert (Init.databases site_config
          = Some [("jobs", Init.mkDatabase "db1" "sales" 5432 POSTGRES None None)]) as H3
    by reflexivity.
  assert (NoDup [("jobs", Init.mkDatabase "db1" "sales" 5432 POSTGRES None None)].*1) as H4
    by (apply (bool_decide_unpack _); vm_compute; exact I).
  assert (("jobs", Init.mkDatabase "db1" "sales" 5432 POSTGRES None None)
          ∈ [("jobs", Init.mkDatabase "db1" "sales" 5432 POSTGRES None None)]) as H5
    by apply list_elem_of_here.
  exists M, S. split; [exact H1|]. split; [exact H2|]. split; [exact H3|].
  split; [exact H4|]. split; [exact H5|].
  exact (load_first_file_wins [] [package_config] site_config _ "jobs" _ M S
           H1 H2 H3 H4 H5).
Defined.

Lemma master_creds_items found_configs :
  Init.master_creds found_configs
  = foldl Init.master_step [] (Init.credential_items found_configs).
Proof.
  unfold Init.master_creds, Init.credential_items. generalize (@nil (string * (option string * option string))).
  induction found_configs as [|c l IH]; intros M; [done|].
  cbn [foldl mbind list_bind]. rewrite foldl_app, <- IH.
  by destruct (Init.credentials c).
Qed.

Lemma first_usable_cons t c item l :
  Init.first_usable t c (item :: l)
  ↔ (item = (t, c) ∧ Init.usable item = true)
    ∨ ((item.1 = t → Init.usable item = false) ∧ Init.first_usable t c l).
Proof.
  unfold Init.first_usable. split.
  - intros (l1 & l2 & Hl & Hu & Hall). destruct l1 as [|x l1]; cbn in Hl.
    + injection Hl as -> ->. by left.
    + injection Hl as -> ->. apply Forall_cons in Hall as [Hx Hall].
      right. split; [done|]. by exists l1, l2.
  - intros [[-> Hu]|[Hx (l1 & l2 & -> & Hu & Hall)]].
    + exists [], l. by repeat split.
    + exists (item :: l1), l2. repeat split; [done|]. by constructor.
Qed.

Lemma master_fold_spec l M0 t v :
  (t, v) ∈ foldl Init.master_step M0 l
  ↔ (t, v) ∈ M0
    ∨ ((t ∉ M0.*1)
       ∧ ∃ c, Init.first_usable t c l ∧ v = (Init.c_username c, Init.c_password c)).
Proof.
  revert M0. induction l as [|item l IH]; intros M0.
  - cbn [foldl]. split; [by left|]. intros [?|[_ (c & (l1 & l2 & Hl & _) & _)]]; [done|].
    by destruct l1.
  - cbn [foldl]. rewrite IH. unfold Init.master_step.
    setoid_rewrite first_usable_cons.
    destruct (decide (item.1 ∈ M0.*1)) as [Hin|Hin].
    + rewrite bool_decide_true by done. split.
      * intros [?|[Ht (c & Hf & ->)]]; [by left|]. right. split; [done|].
        exists c. split; [|done]. right. split; [|done]. intros <-. done.
      * intros [?|[Ht (c & [[-> _]|[_ Hf]] & ->)]]; [by left|done|].
        right. split; [done|]. by exists c.
    + rewrite bool_decide_false by done.
      change (Init.truthy (Init.c_username item.2) && Init.truthy (Init.c_password item.2))
        with (Init.usable item).
      destruct (Init.usable item) eqn:Eu.
      * rewrite elem_of_app, list_elem_of_singleton, fmap_app, not_elem_of_app.
        cbn [fmap list_fmap fst]. rewrite not_elem_of_cons. split.
        -- intros [[?|[= -> ->]]|[(Ht & Hne & _) (c & Hf & ->)]]; [by left| |].
           ++ right. split; [done|]. exists item.2. split; [|done].
              left. by destruct item.
           ++ right. split; [done|]. exists c. split; [|done].
              right. split; [|done]. intros <-. done.
        -- intros [?|[Ht (c & [[-> _]|[Hx Hf]] & ->)]]; [by left; left|by left; right|].
           right. split.
           ++ split; [done|]. split; [|apply not_elem_of_nil].
              intros ->. specialize (Hx eq_refl). congruence.
           ++ by exists c.
      * split.
        -- intros [?|[Ht (c & Hf & ->)]]; [by left|]. right. split; [done|].
           exists c. split; [|done]. right. done.
        -- intros [?|[Ht (c & [[-> Hu]|[_ Hf]] & ->)]]; [by left|congruence|].
           right. split; [done|]. by exists c.
Qed.

(** Credentials are pushed down from the file of highest priority: what
    [MASTER_CREDS] holds for a type is exactly the first pair, in the
    order of the files, with a user name and a password that are both
    not empty; pairs with an empty or missing part are passed over, and
    later pairs for the type are ignored. *)
Theorem master_creds_first_usable (found_configs : list Init.config) (type_ : string)
    (u p : option string) :
  (type_, (u, p)) ∈ Init.master_creds found_configs
  ↔ Init.first_usable type_ (Init.mkCredential u p) (Init.credential_items found_configs).
Proof.
  rewrite master_creds_items, master_fold_spec. split.
  - intros [?%elem_of_nil|[_ ([u' p'] & Hf & [= -> ->])]]; done.
  - intros Hf. right. split; [apply not_elem_of_nil|]. by eexists.
Qed.

(** ** Work in progress *)

Lemma update_where_twice (w : row → bool) f g q :
  (∀ r, w (f r) = w r) →
  update_where w g (update_where w f q) = update_where w (λ r, g (f r)) q.
Proof.
  intros Hw. unfold update_where. cbn [t_rows t_columns t_seq]. f_equal.
  rewrite <- list_fmap_compose. apply list_fmap_ext. intros _ r _. unfold compose.
  destruct (w r) eqn:E; [by rewrite Hw, E | by rewrite E].
Qed.

Lemma in_progress_after_update f q r x :
  primary_key q → r ∈ t_rows q →
  x ∈ get_work_in_progress (update_where (id_is (sq_id r)) f q)
  ↔ (x = f r ∧ sq_status (f r) = STATUS_PROGRESS)
    ∨ (x ∈ get_work_in_progress q ∧ x ≠ r).
Proof.
  intros Hpk Hr. rewrite update_key by done.
  unfold get_work_in_progress. rewrite !elem_of_select_where. cbn [t_rows].
  unfold status_is. rewrite !bool_decide_eq_true, list_elem_of_fmap. split.
  - intros [(y & -> & Hy) Hs]. destruct (decide (y = r)) as [->|Hne]; [by left|].
    by right.
  - intros [[-> Hs]|[[Hx Hs] Hne]].
    + split; [|done]. exists r. by rewrite decide_True.
    + split; [|done]. exists x. by rewrite decide_False.
Qed.

(** [get_work_in_progress] follows [get] and [finish].  After [get] on
    the key of a row, the frame lists that row, as [get] left it, next to
    the rows that were in progress already; after a [finish] of the same
    key with a status other than IN_PROGRESS (a plain text of at most
    twenty characters), the row is listed no more. *)
Theorem work_in_progress_tracks (host : string) (now now' : Z) (finish_status : string)
    (q : table) (r : row) :
  primary_key q → r ∈ t_rows q →
  storable finish_status → finish_status ≠ STATUS_PROGRESS →
  (∀ x, x ∈ get_work_in_progress (get host now (sq_id r) q).1
        ↔ x = set_got now host r ∨ (x ∈ get_work_in_progress q ∧ x ≠ r))
  ∧ ∃ q', finish now' (sq_id r) finish_status (get host now (sq_id r) q).1 = Some q'
          ∧ ∀ x, x ∈ get_work_in_progress q'
                 ↔ x ∈ get_work_in_progress q ∧ x ≠ r.
Proof.
  intros Hpk Hr Hp Hs. unfold get. cbn [fst].
  rewrite finish_storable by done. split.
  - intros x. rewrite in_progress_after_update by done. cbn. tauto.
  - eexists. split; [done|]. intros x.
    rewrite update_where_twice by done.
    rewrite in_progress_after_update by done. cbn [sq_status set_finished].
    split; [intros [[_ ?]|?]; done | by right].
Qed.

Lemma work_in_progress_tracks_witness :
  primary_key claimed_once
  ∧ ∃ r, r ∈ t_rows claimed_once
    ∧ storable STATUS_COMPLETED
    ∧ STATUS_COMPLETED ≠ STATUS_PROGRESS
    ∧ (∀ x, x ∈ get_work_in_progress (get "worker" 10 (sq_id r) claimed_once).1
            ↔ x = set_got 10 "worker" r
              ∨ (x ∈ get_work_in_progress claimed_once ∧ x ≠ r))
    ∧ ∃ q', finish 20 (sq_id r) STATUS_COMPLETED
              (get "worker" 10 (sq_id r) claimed_once).1 = Some q'
            ∧ ∀ x, x ∈ get_work_in_progress q'
                   ↔ x ∈ get_work_in_progress claimed_once ∧ x ≠ r.
Proof.
  assert (primary_key claimed_once) as H1.
  { unfold primary_key. apply (bool_decide_unpack _). vm_compute. exact I. }
  assert (∃ r, t_rows claimed_once = [r]) as (r & Hr) by (eexists; vm_compute; reflexivity).
  assert (r ∈ t_rows claimed_once) as H2 by (rewrite Hr; apply list_elem_of_here).
  assert (storable STATUS_COMPLETED) as H3 by (split; [reflexivity | vm_compute; lia]).
  assert (STATUS_COMPLETED ≠ STATUS_PROGRESS) as H4 by discriminate.
  split; [exact H1|]. exists r. split; [exact H2|]. split; [exact H3|]. split; [exact H4|].
  exact (work_in_progress_tracks "worker" 10 20 STATUS_COMPLETED claimed_once r
           H1 H2 H3 H4).
Defined.
